(** * kid-backend: credential and reset-challenge lifecycle

    A shallow embedding of [server.js] (the Express application with the
    register, login and three-step OTP reset endpoints) and of the
    [router.post("/login")] handler of the second source file, followed by the properties of the
    specification that were checked against them.

    Conventions of the embedding.
    - A JavaScript string is a [string]: a sequence of code units (the
      development only needs code units below 256).
    - A JSON value received in a request body or sent in a response is a
      [json] tree.  A number is kept by what the handlers can observe of it:
      whether it is truthy and how [String] renders it.
    - A thrown exception is the [Raise] outcome of a step; [try { } catch]
      is [try_catch].
    - The MySQL [users] table is a list of rows in insertion order; a query
      is a pure function on that list, and [WHERE column = ?] compares
      strings exactly (a binary collation).  Time ([Date.now()]), the
      salt drawn by [bcrypt.hash], the draw of [Math.random()],
      [process.env] and the fate of the SMTP delivery are inputs of each
      request ([env]).
    - [bcryptjs] is an interface ([SecretHasher]) with the two facts the
      server relies on.
    - A JavaScript Number is the rational it denotes, and arithmetic on
      Numbers rounds to the nearest binary64 value.
    - A handler runs to completion before the next request starts, except
      in the part on requests that overlap, where [register] and
      [verify-reset-otp] are split at their [await]s and two requests take
      turns.  Queries succeed: a failing connection is outside the model. *)

From Stdlib Require Import List String Ascii Bool ZArith QArith Qround Qpower Qabs.
From Stdlib Require Import SpecFloat Lia Lqa.
Import ListNotations.
Open Scope string_scope.
Open Scope Z_scope.
Set Warnings "-register-all".

(* ================================================================== *)
(** ** JavaScript runtime: strings *)
(* ================================================================== *)

(** [!s] for a string. *)
Definition is_empty (s : string) : bool :=
  match s with
  | EmptyString => true
  | String _ _ => false
  end.

(** White space and line terminators removed by [String.prototype.trim]
    (TAB, LF, VT, FF, CR, SP, NBSP). *)
Definition is_space (c : ascii) : bool :=
  let n := nat_of_ascii c in
  (Nat.eqb n 9 || Nat.eqb n 10 || Nat.eqb n 11 || Nat.eqb n 12
   || Nat.eqb n 13 || Nat.eqb n 32 || Nat.eqb n 160)%bool.

Fixpoint trimStart (s : string) : string :=
  match s with
  | EmptyString => EmptyString
  | String c rest => if is_space c then trimStart rest else s
  end.

Fixpoint trimEnd (s : string) : string :=
  match s with
  | EmptyString => EmptyString
  | String c rest =>
      match trimEnd rest with
      | EmptyString => if is_space c then EmptyString else String c EmptyString
      | kept => String c kept
      end
  end.

(** [s.trim()] *)
Definition trim (s : string) : string := trimEnd (trimStart s).

(** Lower-case mapping of one code unit: A-Z, and the Latin-1 capitals
    U+00C0..U+00DE except the multiplication sign U+00D7. *)
Definition lower_char (c : ascii) : ascii :=
  let n := nat_of_ascii c in
  if (Nat.leb 65 n && Nat.leb n 90)%bool then ascii_of_nat (n + 32)
  else if (Nat.leb 192 n && Nat.leb n 222 && negb (Nat.eqb n 215))%bool
       then ascii_of_nat (n + 32)
  else c.

(** [s.toLowerCase()] *)
Fixpoint toLowerCase (s : string) : string :=
  match s with
  | EmptyString => EmptyString
  | String c rest => String (lower_char c) (toLowerCase rest)
  end.

(** Decimal digit [d] (0..9) as a character. *)
Definition digit_char (d : Z) : ascii := ascii_of_nat (48 + Z.to_nat d).

(** Digits of a non-negative integer, most significant first, pushed in
    front of [acc]. *)
Fixpoint decimal (fuel : nat) (n : Z) (acc : string) : string :=
  match fuel with
  | O => acc
  | S fuel' =>
      let acc' := String (digit_char (n mod 10)) acc in
      if n <? 10 then acc' else decimal fuel' (n / 10) acc'
  end.

(** [String(n)] for an integer [n] (of magnitude below 10^21, where
    JavaScript prints plain decimal digits). *)
Definition string_of_Z (n : Z) : string :=
  if n <? 0
  then String "-"%char (decimal (S (Z.to_nat (Z.log2 (- n)))) (- n) "")
  else decimal (S (Z.to_nat (Z.log2 n))) n "".

Definition is_digit (c : ascii) : bool :=
  let n := nat_of_ascii c in (Nat.leb 48 n && Nat.leb n 57)%bool.

Fixpoint all_digits (s : string) : bool :=
  match s with
  | EmptyString => true
  | String c rest => (is_digit c && all_digits rest)%bool
  end.

(* ================================================================== *)
(** ** JavaScript runtime: JSON values, truthiness, [String(...)] *)
(* ================================================================== *)

(** A number as a handler observes it. *)
Record jsnum : Type := mk_jsnum {
  num_truthy : bool;   (* false for 0, -0 and NaN *)
  num_text : string    (* String(n) *)
}.

Definition jsnum_of_Z (n : Z) : jsnum :=
  {| num_truthy := negb (n =? 0); num_text := string_of_Z n |}.

Inductive json : Type :=
| JNull
| JBool (b : bool)
| JNum (n : jsnum)
| JStr (s : string)
| JArr (items : list json)
| JObj (fields : list (string * json)).

(** Exceptions a handler can meet. *)
Inductive exn : Type :=
| TypeError (msg : string)
| MailError.

(** Outcome of evaluating an expression: a value, or a thrown exception. *)
Inductive outcome (A : Type) : Type :=
| Value (a : A)
| Thrown (e : exn).
Arguments Value {A} a.
Arguments Thrown {A} e.

(** Own property of an object built by [JSON.parse]: the last occurrence
    of the key. *)
Fixpoint own_property (fields : list (string * json)) (key : string)
  : option json :=
  match fields with
  | [] => None
  | (k, v) :: rest =>
      match own_property rest key with
      | Some later => Some later
      | None => if String.eqb k key then Some v else None
      end
  end.

(** [obj.key] for one of the keys the handlers read ([email], [password],
    [otp], [newPassword]: none of them is on a prototype).  [None] is
    [undefined]; reading a property of [undefined] or [null] throws. *)
Definition get_property (obj : option json) (key : string)
  : outcome (option json) :=
  match obj with
  | None => Thrown (TypeError "Cannot read properties of undefined")
  | Some JNull => Thrown (TypeError "Cannot read properties of null")
  | Some (JObj fields) => Value (own_property fields key)
  | Some _ => Value None
  end.

(** ToBoolean. *)
Definition truthy (v : option json) : bool :=
  match v with
  | None => false
  | Some JNull => false
  | Some (JBool b) => b
  | Some (JNum n) => num_truthy n
  | Some (JStr s) => negb (is_empty s)
  | Some (JArr _) => true
  | Some (JObj _) => true
  end.

(** [v || ""] *)
Definition or_empty (v : option json) : json :=
  match v with
  | Some x => if truthy v then x else JStr ""
  | None => JStr ""
  end.

(** [String(v)].  An array goes through [Array.prototype.join]: elements
    separated by commas, [null] printed as nothing.  An object goes through
    OrdinaryToPrimitive: a parsed object whose own [toString] is (like every
    JSON value) not callable falls back to [valueOf], which never yields a
    primitive, and the conversion throws; any other object prints as
    [[object Object]]. *)
Fixpoint to_String (v : json) : outcome string :=
  match v with
  | JNull => Value "null"
  | JBool true => Value "true"
  | JBool false => Value "false"
  | JNum n => Value (num_text n)
  | JStr s => Value s
  | JArr items =>
      (fix join (l : list json) : outcome string :=
         match l with
         | [] => Value ""
         | x :: rest =>
             let first := match x with JNull => Value "" | _ => to_String x end in
             match first with
             | Thrown e => Thrown e
             | Value s =>
                 match rest with
                 | [] => Value s
                 | _ :: _ =>
                     match join rest with
                     | Thrown e => Thrown e
                     | Value t => Value (s ++ "," ++ t)
                     end
                 end
             end
         end) items
  | JObj fields =>
      match own_property fields "toString" with
      | Some _ => Thrown (TypeError "Cannot convert object to primitive value")
      | None => Value "[object Object]"
      end
  end.

(** [String(v || "")] *)
Definition String_or_empty (v : option json) : outcome string :=
  to_String (or_empty v).

(* ================================================================== *)
(** ** JavaScript runtime: Numbers *)
(* ================================================================== *)

(** A finite Number is an IEEE 754 binary64 value: an integer of magnitude
    below 2^53 times a power of two, the power being at least 2^-1074.  A
    Number is kept as the rational it denotes.  An arithmetic operation
    returns the Number nearest to its exact result, a tie going to the even
    significand; the magnitudes met here are far below 2^1024, where
    results stop being finite. *)

(** The binade of [x <> 0]: the [k] with 2^k <= |x| < 2^(k+1).  The
    difference of the bit lengths of numerator and denominator is [k] or
    [k + 1]. *)
Definition binade (x : Q) : Z :=
  let k := Z.log2 (Z.abs (Qnum x)) - Z.log2 (Z.pos (Qden x)) in
  if Qle_bool (2 ^ k) (Qabs x) then k else k - 1.

(** The exponent of the last place of the Numbers around [x]: 52 binary
    places below the binade, and -1074 throughout the subnormal range. *)
Definition last_place (x : Q) : Z := Z.max (binade x - 52) (-1074).

(** The nearest integer, a tie going to the even one. *)
Definition round_half_even (x : Q) : Z :=
  let n := Qfloor x in
  match (x - inject_Z n ?= 1 # 2)%Q with
  | Lt => n
  | Gt => n + 1
  | Eq => if Z.even n then n else n + 1
  end.

(** The Number nearest to [x]. *)
Definition to_double (x : Q) : Q :=
  let q := last_place x in (inject_Z (round_half_even (x / 2 ^ q)) * 2 ^ q)%Q.

(** The greatest Number that is not above [x >= 0]. *)
Definition double_below (x : Q) : Q :=
  let q := last_place x in (inject_Z (Qfloor (x / 2 ^ q)) * 2 ^ q)%Q.

(** [x * y] *)
Definition number_mul (x y : Q) : Q := to_double (x * y).

(** [x + y] *)
Definition number_add (x y : Q) : Q := to_double (x + y).

(** [Math.random()]: a Number of [0, 1).  The environment draws a point
    [r] of [0, 1) and the Number returned is the one at or next below [r],
    so that every Number of [0, 1) is returned, for the draw that is that
    Number, and nothing else is. *)
Definition Math_random (r : Q) : Q := double_below r.

(* ================================================================== *)
(** ** bcryptjs *)
(* ================================================================== *)

(** The hasher as the server uses it.  [bcrypt_hash s rounds salt] is
    [bcrypt.hash(s, rounds)] when the library draws [salt];
    [bcrypt_compare s h] is [bcrypt.compare(s, h)].  The two laws: a secret
    verifies against its own hash, and a hash is never the empty string. *)
Class SecretHasher : Type := {
  bcrypt_hash : string -> Z -> string -> string;
  bcrypt_compare : string -> string -> bool;
  compare_hash : forall s rounds salt,
    bcrypt_compare s (bcrypt_hash s rounds salt) = true;
  hash_not_empty : forall s rounds salt,
    is_empty (bcrypt_hash s rounds salt) = false
}.

(* ================================================================== *)
(** ** The store *)
(* ================================================================== *)

(** Modelled from the spec: the schema of the [users] table is not in the
    sources.  The columns are the ones the queries of [server.js] name; per
    the spec's persisted layout the OTP hash and expiry are nullable and the
    attempts counter is an integer with default 0.  [reset_otp_expires] is
    kept in milliseconds since the epoch, as [getTime()] reads it back. *)
Record user_row : Type := mk_user {
  id : Z;
  email : string;
  password_hash : string;
  reset_otp_hash : option string;
  reset_otp_expires : option Z;
  reset_otp_attempts : Z
}.

(** Everything a request can read or change: the table, the identifier the
    store gives to the next inserted row, the messages handed to the SMTP
    transport (recipient, code), and the number of [bcrypt.compare] calls
    made so far. *)
Record world : Type := mk_world {
  users : list user_row;
  next_id : Z;
  outbox : list (string * string);
  compare_calls : nat
}.

(** What a request draws from its surroundings. *)
Record env : Type := mk_env {
  now : Z;                      (* Date.now() *)
  salt : string;                (* drawn inside bcrypt.hash *)
  random : Q;                   (* the point of [0, 1) Math.random() draws *)
  SMTP_USER : option string;    (* process.env.SMTP_USER *)
  SMTP_PASS : option string;    (* process.env.SMTP_PASS *)
  mail_ok : bool                (* whether transporter.sendMail succeeds *)
}.

(** [SELECT ... FROM users WHERE email = ?] *)
Definition select_by_email (tbl : list user_row) (em : string)
  : list user_row :=
  filter (fun u => String.eqb (email u) em) tbl.

(** [UPDATE users SET ... WHERE email = ?] *)
Definition update_by_email (tbl : list user_row) (em : string)
  (set : user_row -> user_row) : list user_row :=
  map (fun u => if String.eqb (email u) em then set u else u) tbl.

(** [SET reset_otp_hash=?, reset_otp_expires=?, reset_otp_attempts=0] *)
Definition set_challenge (h : string) (expires : Z) (u : user_row) : user_row :=
  {| id := id u; email := email u; password_hash := password_hash u;
     reset_otp_hash := Some h; reset_otp_expires := Some expires;
     reset_otp_attempts := 0 |}.

(** [SET reset_otp_attempts = reset_otp_attempts + 1] *)
Definition increment_attempts (u : user_row) : user_row :=
  {| id := id u; email := email u; password_hash := password_hash u;
     reset_otp_hash := reset_otp_hash u;
     reset_otp_expires := reset_otp_expires u;
     reset_otp_attempts := reset_otp_attempts u + 1 |}.

(** [SET password_hash=?, reset_otp_hash=NULL, reset_otp_expires=NULL,
    reset_otp_attempts=0] *)
Definition set_password (h : string) (u : user_row) : user_row :=
  {| id := id u; email := email u; password_hash := h;
     reset_otp_hash := None; reset_otp_expires := None;
     reset_otp_attempts := 0 |}.

(** The row [INSERT INTO users (email, password_hash) VALUES (?, ?)] adds:
    the other columns take their defaults. *)
Definition new_user (i : Z) (em h : string) : user_row :=
  {| id := i; email := em; password_hash := h;
     reset_otp_hash := None; reset_otp_expires := None;
     reset_otp_attempts := 0 |}.

(* ================================================================== *)
(** ** Responses and handler steps *)
(* ================================================================== *)

Record response : Type := mk_response {
  status : Z;
  payload : json
}.

(** [res.json(body)] *)
Definition res_json (body : json) : response :=
  {| status := 200; payload := body |}.

(** [res.status(code).json(body)] *)
Definition res_status_json (code : Z) (body : json) : response :=
  {| status := code; payload := body |}.

(** [{ success: ok, message: msg }] *)
Definition message_body (ok : bool) (msg : string) : json :=
  JObj [("success", JBool ok); ("message", JStr msg)].

(** A step of an [async] handler: it goes on with a value, ends the
    request with [return res.json(...)], or throws. *)
Inductive step (A : Type) : Type :=
| Next (a : A)
| Respond (r : response)
| Raise (e : exn).
Arguments Next {A} a.
Arguments Respond {A} r.
Arguments Raise {A} e.

Definition action (A : Type) : Type := world -> step A * world.

Definition ret {A : Type} (a : A) : action A := fun w => (Next a, w).

Definition bind {A B : Type} (m : action A) (k : A -> action B) : action B :=
  fun w =>
    match m w with
    | (Next a, w') => k a w'
    | (Respond r, w') => (Respond r, w')
    | (Raise e, w') => (Raise e, w')
    end.

Declare Scope action_scope.
Delimit Scope action_scope with action.
Notation "x <- m ;; k" := (bind m (fun x => k))
  (at level 100, m at next level, right associativity) : action_scope.
Notation "m ;; k" := (bind m (fun _ => k))
  (at level 100, right associativity) : action_scope.
Open Scope action_scope.

(** [return res.json(...)] *)
Definition respond {A : Type} (r : response) : action A :=
  fun w => (Respond r, w).

(** An expression that may throw. *)
Definition eval {A : Type} (o : outcome A) : action A :=
  fun w =>
    match o with
    | Value a => (Next a, w)
    | Thrown e => (Raise e, w)
    end.

(** [if (cond) return res.json(...)] *)
Definition return_if (cond : bool) (r : response) : action unit :=
  if cond then respond r else ret tt.

(** [try { body } catch (err) { return res.status(500).json(on_error) }] *)
Definition try_catch (body : action Empty_set) (on_error : response)
  : world -> response * world :=
  fun w =>
    match body w with
    | (Next impossible, _) => match impossible with end
    | (Respond r, w') => (r, w')
    | (Raise _, w') => (on_error, w')
    end.

(** The world after a statement changed the table. *)
Definition with_users (w : world) (tbl : list user_row) : world :=
  {| users := tbl; next_id := next_id w; outbox := outbox w;
     compare_calls := compare_calls w |}.

(** The world after one more [bcrypt.compare]. *)
Definition compared (w : world) : world :=
  {| users := users w; next_id := next_id w; outbox := outbox w;
     compare_calls := S (compare_calls w) |}.

(** The world after [sendOtpEmail] handed a code over. *)
Definition mailed (w : world) (to otp : string) : world :=
  {| users := users w; next_id := next_id w;
     outbox := outbox w ++ [(to, otp)]; compare_calls := compare_calls w |}.

(** The world after [INSERT INTO users (email, password_hash)]: the new
    row takes the identifier the store assigns. *)
Definition inserted (w : world) (em h : string) : world :=
  {| users := users w ++ [new_user (next_id w) em h];
     next_id := next_id w + 1;
     outbox := outbox w; compare_calls := compare_calls w |}.

(** The queries and library calls of the handlers. *)
Definition query_select (em : string) : action (list user_row) :=
  fun w => (Next (select_by_email (users w) em), w).

Definition query_update (em : string) (set : user_row -> user_row)
  : action unit :=
  fun w => (Next tt, with_users w (update_by_email (users w) em set)).

Definition query_insert (em h : string) : action unit :=
  fun w => (Next tt, inserted w em h).

(** [await bcrypt.compare(s, h)] *)
Definition await_compare `{SecretHasher} (s h : string) : action bool :=
  fun w => (Next (bcrypt_compare s h), compared w).

(** [await bcrypt.hash(s, 10)] *)
Definition await_hash `{SecretHasher} (e : env) (s : string) : action string :=
  ret (bcrypt_hash s 10 (salt e)).

(** [rows.length] *)
Definition rows_length (rows : list user_row) : Z := Z.of_nat (List.length rows).

(** [s.length] *)
Definition str_length (s : string) : Z := Z.of_nat (String.length s).

(* ================================================================== *)
(** ** server.js *)
(* ================================================================== *)

(** [function requireDB(req, res, next)]: [pool] is [None] when
    [initDB] failed. *)
Definition requireDB (pool : option world) (next : world -> response * world)
  : response * option world :=
  match pool with
  | None =>
      (res_status_json 500
         (message_body false "DB not connected. Check MySQL config."), None)
  | Some w => let (r, w') := next w in (r, Some w')
  end.

(** Reading and coercing one field: [String(req.body.key || "")]. *)
Definition field (body : option json) (key : string) : outcome string :=
  match get_property body key with
  | Thrown e => Thrown e
  | Value v => String_or_empty v
  end.

(** [String(req.body.email || "").trim().toLowerCase()] *)
Definition email_field (body : option json) : outcome string :=
  match field body "email" with
  | Thrown e => Thrown e
  | Value s => Value (toLowerCase (trim s))
  end.

(** [String(req.body.otp || "").trim()] *)
Definition otp_field (body : option json) : outcome string :=
  match field body "otp" with
  | Thrown e => Thrown e
  | Value s => Value (trim s)
  end.

(** Lines 74-77: the inputs of [/api/register] and [/api/login]. *)
Definition credentials (body : option json) : outcome (string * string) :=
  match email_field body with
  | Thrown e => Thrown e
  | Value emailLower =>
      match field body "password" with
      | Thrown e => Thrown e
      | Value pass => Value (emailLower, pass)
      end
  end.

(** POST /api/register *)
Definition register_handler `{SecretHasher} (e : env) (body : option json)
  : action Empty_set :=
  inputs <- eval (credentials body) ;;
  let emailLower := fst inputs in
  let pass := snd inputs in
  return_if (is_empty emailLower || is_empty pass)
    (res_json (message_body false "Email & password required")) ;;
  return_if (str_length pass <? 6)
    (res_json (message_body false "Password must be at least 6 characters")) ;;
  exist <- query_select emailLower ;;
  return_if (rows_length exist >? 0)
    (res_json (message_body false "Email already exists")) ;;
  hash <- await_hash e pass ;;
  query_insert emailLower hash ;;
  respond (res_json (message_body true "Account created")).

Definition register `{SecretHasher} (e : env) (body : option json)
  : world -> response * world :=
  try_catch (register_handler e body)
    (res_status_json 500 (message_body false "Server error (register)")).

(** [{ success: true, user: { id: user.id, email: user.email } }] *)
Definition login_body (user : user_row) : json :=
  JObj [("success", JBool true);
        ("user", JObj [("id", JNum (jsnum_of_Z (id user)));
                       ("email", JStr (email user))])].

(** POST /api/login *)
Definition login_handler `{SecretHasher} (e : env) (body : option json)
  : action Empty_set :=
  inputs <- eval (credentials body) ;;
  let emailLower := fst inputs in
  let pass := snd inputs in
  return_if (is_empty emailLower || is_empty pass)
    (res_json (message_body false "Email & password required")) ;;
  rows <- query_select emailLower ;;
  match rows with
  | [] => respond (res_json (message_body false "User not found. Please Sign Up."))
  | user :: _ =>
      ok <- await_compare pass (password_hash user) ;;
      return_if (negb ok) (res_json (message_body false "Wrong password")) ;;
      respond (res_json (login_body user))
  end.

Definition login `{SecretHasher} (e : env) (body : option json)
  : world -> response * world :=
  try_catch (login_handler e body)
    (res_status_json 500 (message_body false "Server error (login)")).

(** [function generateOtp6()]:
    [String(Math.floor(100000 + Math.random() * 900000))], where [r] is
    what the environment draws for [Math.random()]; the product and the
    sum are operations on Numbers and round as such, and [Math.floor] is
    [Qfloor]. *)
Definition generateOtp6 (r : Q) : string :=
  string_of_Z (Qfloor (number_add 100000 (number_mul (Math_random r) 900000))).

(** [async function sendOtpEmail(to, otp)]: hands the code to the SMTP
    transport, or throws when the delivery fails. *)
Definition sendOtpEmail (e : env) (to otp : string) : action unit :=
  fun w => if mail_ok e then (Next tt, mailed w to otp) else (Raise MailError, w).

(** [!process.env.NAME] is false: the variable is set and not empty. *)
Definition env_set (v : option string) : bool :=
  match v with
  | Some s => negb (is_empty s)
  | None => false
  end.

(** POST /api/auth/forgot-password *)
Definition forgot_password_handler `{SecretHasher} (e : env)
  (body : option json) : action Empty_set :=
  emailLower <- eval (email_field body) ;;
  return_if (is_empty emailLower)
    (res_json (message_body false "Email required")) ;;
  rows <- query_select emailLower ;;
  return_if (rows_length rows =? 0)
    (res_json (message_body true "If email exists, OTP sent.")) ;;
  return_if (negb (env_set (SMTP_USER e)) || negb (env_set (SMTP_PASS e)))
    (res_status_json 500
       (message_body false
          "SMTP not configured. Add SMTP_USER & SMTP_PASS in .env")) ;;
  let otp := generateOtp6 (random e) in
  otpHash <- await_hash e otp ;;
  let expires := now e + 5 * 60 * 1000 in
  query_update emailLower (set_challenge otpHash expires) ;;
  sendOtpEmail e emailLower otp ;;
  respond (res_json (message_body true "OTP sent to your email.")).

Definition forgot_password `{SecretHasher} (e : env) (body : option json)
  : world -> response * world :=
  try_catch (forgot_password_handler e body)
    (res_status_json 500 (message_body false "Server error (forgot-password)")).

(** The pending challenge of a row: [None] exactly when
    [!user.reset_otp_hash || !user.reset_otp_expires]. *)
Definition challenge (user : user_row) : option (string * Z) :=
  match reset_otp_hash user, reset_otp_expires user with
  | Some h, Some expires => if is_empty h then None else Some (h, expires)
  | _, _ => None
  end.

(** [n || 0] *)
Definition or_zero (n : Z) : Z := if n =? 0 then 0 else n.

(** POST /api/auth/verify-reset-otp *)
Definition verify_reset_otp_handler `{SecretHasher} (e : env)
  (body : option json) : action Empty_set :=
  emailLower <- eval (email_field body) ;;
  otp <- eval (otp_field body) ;;
  return_if (is_empty emailLower || is_empty otp)
    (res_json (message_body false "Email & OTP required")) ;;
  rows <- query_select emailLower ;;
  match rows with
  | [] => respond (res_json (message_body false "User not found"))
  | user :: _ =>
      match challenge user with
      | None => respond (res_json (message_body false "OTP not requested."))
      | Some (otp_hash, expires) =>
          return_if (expires <? now e)
            (res_json (message_body false "OTP expired. Request again.")) ;;
          return_if (or_zero (reset_otp_attempts user) >=? 5)
            (res_json (message_body false "Too many attempts. Request new OTP.")) ;;
          ok <- await_compare otp otp_hash ;;
          query_update emailLower increment_attempts ;;
          return_if (negb ok) (res_json (message_body false "Invalid OTP.")) ;;
          respond (res_json (message_body true "OTP verified."))
      end
  end.

Definition verify_reset_otp `{SecretHasher} (e : env) (body : option json)
  : world -> response * world :=
  try_catch (verify_reset_otp_handler e body)
    (res_status_json 500 (message_body false "Server error (verify-reset-otp)")).

(** POST /api/auth/reset-password *)
Definition reset_password_handler `{SecretHasher} (e : env)
  (body : option json) : action Empty_set :=
  emailLower <- eval (email_field body) ;;
  otp <- eval (otp_field body) ;;
  newPassword <- eval (field body "newPassword") ;;
  return_if (is_empty emailLower || is_empty otp || is_empty newPassword)
    (res_json (message_body false "Email, OTP, newPassword required")) ;;
  rows <- query_select emailLower ;;
  match rows with
  | [] => respond (res_json (message_body false "User not found"))
  | user :: _ =>
      match challenge user with
      | None => respond (res_json (message_body false "OTP not requested."))
      | Some (otp_hash, expires) =>
          return_if (expires <? now e)
            (res_json (message_body false "OTP expired. Request again.")) ;;
          ok <- await_compare otp otp_hash ;;
          return_if (negb ok) (res_json (message_body false "Invalid OTP.")) ;;
          hash <- await_hash e newPassword ;;
          query_update emailLower (set_password hash) ;;
          respond (res_json (message_body true "Password updated successfully."))
      end
  end.

Definition reset_password `{SecretHasher} (e : env) (body : option json)
  : world -> response * world :=
  try_catch (reset_password_handler e body)
    (res_status_json 500 (message_body false "Server error (reset-password)")).

(** The five POST routes of the application, each behind [requireDB]. *)
Inductive route : Type :=
| ApiRegister
| ApiLogin
| ApiForgotPassword
| ApiVerifyResetOtp
| ApiResetPassword.

Definition route_handler `{SecretHasher} (r : route)
  : env -> option json -> world -> response * world :=
  match r with
  | ApiRegister => register
  | ApiLogin => login
  | ApiForgotPassword => forgot_password
  | ApiVerifyResetOtp => verify_reset_otp
  | ApiResetPassword => reset_password
  end.

Definition app_post `{SecretHasher} (r : route) (e : env) (body : option json)
  (pool : option world) : response * option world :=
  requireDB pool (route_handler r e body).

(** The coercions a route performs on its body before anything else. *)
Definition route_inputs (r : route) (body : option json) : outcome (list string) :=
  match r with
  | ApiRegister | ApiLogin =>
      match credentials body with
      | Thrown e => Thrown e
      | Value (emailLower, pass) => Value [emailLower; pass]
      end
  | ApiForgotPassword =>
      match email_field body with
      | Thrown e => Thrown e
      | Value emailLower => Value [emailLower]
      end
  | ApiVerifyResetOtp =>
      match email_field body with
      | Thrown e => Thrown e
      | Value emailLower =>
          match otp_field body with
          | Thrown e => Thrown e
          | Value otp => Value [emailLower; otp]
          end
      end
  | ApiResetPassword =>
      match email_field body with
      | Thrown e => Thrown e
      | Value emailLower =>
          match otp_field body with
          | Thrown e => Thrown e
          | Value otp =>
              match field body "newPassword" with
              | Thrown e => Thrown e
              | Value newPassword => Value [emailLower; otp; newPassword]
              end
          end
      end
  end.

(* ================================================================== *)
(** ** The router's login route (unnamed source file) *)
(* ================================================================== *)

(** A row of the table that route reads, as [SELECT *] returns it: every
    column with its value. *)
Definition router_row : Type := list (string * json).

Definition column_is (row : router_row) (col value : string) : bool :=
  match own_property row col with
  | Some (JStr s) => String.eqb s value
  | _ => false
  end.

(** [SELECT * FROM users WHERE email = ? AND password = ?] for string
    parameters. *)
Definition router_select (tbl : list router_row) (em pw : string)
  : list router_row :=
  filter (fun row => column_is row "email" em && column_is row "password" pw) tbl.

(** [router.post("/login", ...)]: the callback of [db.query] on a query
    that succeeded, for a body whose [email] and [password] are strings. *)
Definition router_login (tbl : list router_row) (em pw : string) : response :=
  match router_select tbl em pw with
  | [] => res_status_json 401 (JObj [("error", JStr "Invalid credentials")])
  | first :: _ =>
      res_json (JObj [("message", JStr "Login successful");
                      ("user", JObj first)])
  end.

(* ================================================================== *)
(** ** The specification's result kinds, as the responses that carry them *)
(* ================================================================== *)

Definition failure (msg : string) : response := res_json (message_body false msg).

Definition success (msg : string) : response := res_json (message_body true msg).

Definition AccountCreated : response := success "Account created".

Definition EmailExists : response := failure "Email already exists".

Definition UserNotFound : response := failure "User not found. Please Sign Up.".

Definition InvalidCredentials : response := failure "Wrong password".

Definition LoggedIn (user : user_row) : response := res_json (login_body user).

Definition GenericSuccess : response := success "If email exists, OTP sent.".

Definition OtpSent : response := success "OTP sent to your email.".

Definition SmtpNotConfigured : response :=
  res_status_json 500
    (message_body false "SMTP not configured. Add SMTP_USER & SMTP_PASS in .env").

Definition NoChallengeError : response := failure "OTP not requested.".

Definition Expired : response := failure "OTP expired. Request again.".

Definition Exhausted : response := failure "Too many attempts. Request new OTP.".

Definition InvalidOtp : response := failure "Invalid OTP.".

Definition Valid : response := success "OTP verified.".

Definition PasswordUpdated : response := success "Password updated successfully.".

Definition ServerError (where_ : string) : response :=
  res_status_json 500 (message_body false where_).

(* ================================================================== *)
(** ** Vocabulary of the statements *)
(* ================================================================== *)

(** Successive verify requests, oldest first. *)
Fixpoint verify_all `{SecretHasher} (requests : list (env * option json))
  (w : world) : list response * world :=
  match requests with
  | [] => ([], w)
  | (e, body) :: later =>
      let (r, w') := verify_reset_otp e body w in
      let (rs, w'') := verify_all later w' in
      (r :: rs, w'')
  end.

(** A verify request aimed at the account [em] while its challenge
    [(otp_hash, expires)] is live: it passes the input check, arrives no
    later than the expiry, and its code is right or wrong as [correct]
    says. *)
Definition attempt_on `{SecretHasher} (em otp_hash : string) (expires : Z)
  (correct : bool) (request : env * option json) : Prop :=
  exists otp,
    email_field (snd request) = Value em
    /\ otp_field (snd request) = Value otp
    /\ is_empty otp = false
    /\ now (fst request) <= expires
    /\ bcrypt_compare otp otp_hash = correct.



(** The message of each route's [catch] block. *)
Definition catch_message (r : route) : string :=
  match r with
  | ApiRegister => "Server error (register)"
  | ApiLogin => "Server error (login)"
  | ApiForgotPassword => "Server error (forgot-password)"
  | ApiVerifyResetOtp => "Server error (verify-reset-otp)"
  | ApiResetPassword => "Server error (reset-password)"
  end.




(** A response that reports success: its body is an object whose
    [success] property is [true]. *)
Definition succeeded (r : response) : bool :=
  match payload r with
  | JObj fields =>
      match own_property fields "success" with
      | Some (JBool true) => true
      | _ => false
      end
  | _ => false
  end.

(** No row of the table has a negative attempts counter. *)
Definition attempts_non_negative (w : world) : Prop :=
  Forall (fun u => 0 <= reset_otp_attempts u) (users w).

(** The worlds a server that starts on [w0] can be in when it handles its
    requests one after the other: any number of requests, on any route,
    each run to completion before the next one starts. *)
Inductive reachable `{SecretHasher} (w0 : world) : world -> Prop :=
| reachable_start : reachable w0 w0
| reachable_request (w : world) (r : route) (e : env) (body : option json) :
    reachable w0 w -> reachable w0 (snd (route_handler r e body w)).

(* ================================================================== *)
(** ** A concrete hasher and concrete inputs, for evaluation *)
(* ================================================================== *)

(** A stand-in for bcrypt that satisfies [SecretHasher]: the "hash" is the
    secret behind a marker.  It only serves to run the handlers on concrete
    inputs. *)
Definition marker_hash (s : string) (rounds : Z) (salt : string) : string :=
  String "#"%char s.

Definition marker_compare (s h : string) : bool :=
  String.eqb h (String "#"%char s).

Definition marker_hasher : SecretHasher :=
  {| bcrypt_hash := marker_hash;
     bcrypt_compare := marker_compare;
     compare_hash := fun s _ _ => String.eqb_refl (String "#"%char s);
     hash_not_empty := fun _ _ _ => eq_refl |}.

(** [{ "email": em, "password": pw }] *)
Definition credentials_body (em pw : string) : option json :=
  Some (JObj [("email", JStr em); ("password", JStr pw)]).

(** [{ "email": em }] *)
Definition email_body (em : string) : option json :=
  Some (JObj [("email", JStr em)]).

(** [{ "email": em, "otp": otp }] *)
Definition otp_body (em otp : string) : option json :=
  Some (JObj [("email", JStr em); ("otp", JStr otp)]).

(** [{ "email": em, "otp": otp, "newPassword": pw }] *)
Definition reset_body (em otp pw : string) : option json :=
  Some (JObj [("email", JStr em); ("otp", JStr otp); ("newPassword", JStr pw)]).


(** A request environment at time [t] whose [Math.random()] draws [r]:
    SMTP configured, delivery working. *)
Definition drawing (r : Q) (t : Z) : env :=
  {| now := t; salt := "salt"; random := r;
     SMTP_USER := Some "mailer@example.com";
     SMTP_PASS := Some "app-password"; mail_ok := true |}.

(** The same with the draw 1/3, so that the generated code is 400000. *)
Definition at_time (t : Z) : env := drawing (1 # 3) t.

(** A concrete account: password [old-secret], a challenge for the code
    400000 that expires at 301000, and the given attempts count. *)
Definition account (attempts : Z) : user_row :=
  {| id := 7; email := "a@x.com"; password_hash := "#old-secret";
     reset_otp_hash := Some "#400000"; reset_otp_expires := Some 301000;
     reset_otp_attempts := attempts |}.

Definition store_of (tbl : list user_row) : world :=
  {| users := tbl; next_id := 8; outbox := []; compare_calls := 0 |}.

(** A row of the table the router's login reads. *)
Definition router_account : router_row :=
  [("id", JNum (jsnum_of_Z 7)); ("email", JStr "a@x.com");
   ("password", JStr "old-secret")].

(** The Number operations are compared, at sample draws, with the
    standard library's specification of IEEE 754 arithmetic
    ([SpecFloat]), here with 53 bits of precision and exponents below
    1024.  The value of a finite float: *)
Definition spec_float_value (f : spec_float) : Q :=
  match f with
  | S754_finite false m e => (inject_Z (Z.pos m) * 2 ^ e)%Q
  | S754_finite true m e => (- (inject_Z (Z.pos m) * 2 ^ e))%Q
  | _ => 0%Q
  end.

(** The binary64 float [m * 2^e]. *)
Definition binary64_of (m : positive) (e : Z) : spec_float :=
  binary_normalize 53 1024 (Z.pos m) e false.

(** Draws of [Math.random()]: the Numbers nearest to 1/3, 1/10 and 9/10,
    the greatest Number below 1, 1/2, three small ones and the least
    positive Number. *)
Definition sample_draws : list (positive * Z) :=
  [(6004799503160661%positive, -54); (7205759403792794%positive, -56);
   (8106479329266893%positive, -53); (9007199254740991%positive, -53);
   (1%positive, -1); (123456789%positive, -40); (5%positive, -60);
   (3%positive, -1000); (1%positive, -1074)].

(** At the draw [m * 2^e], [Math.random() * 900000] and
    [100000 + Math.random() * 900000] are what [SFmul] and [SFadd] give,
    and [Math.random()] returns the draw. *)
Definition agrees_with_SpecFloat (draw : positive * Z) : bool :=
  let (m, e) := draw in
  let x := binary64_of m e in
  let product := SFmul 53 1024 x (binary64_of 900000 0) in
  let sum := SFadd 53 1024 (binary64_of 100000 0) product in
  Qeq_bool (spec_float_value product) (number_mul (spec_float_value x) 900000)
  && Qeq_bool (spec_float_value sum)
       (number_add 100000 (spec_float_value product))
  && Qeq_bool (Math_random (spec_float_value x)) (spec_float_value x).

(* ================================================================== *)
(** ** Auxiliary definitions and tactics of the proofs *)
(* ================================================================== *)

(** The six digits of a number between 100000 and 999999. *)
Definition six_digits (n : Z) : string :=
  String (digit_char (n / 100000))
    (String (digit_char (n / 10000 mod 10))
       (String (digit_char (n / 1000 mod 10))
          (String (digit_char (n / 100 mod 10))
             (String (digit_char (n / 10 mod 10))
                (String (digit_char (n mod 10)) EmptyString))))).

(** Unfolding the steps of a handler. *)
Ltac unfold_steps :=
  unfold try_catch, bind, eval, return_if, respond, ret, query_select,
    query_update, query_insert, await_compare, await_hash.

Ltac unfold_steps_in H :=
  unfold try_catch, bind, eval, return_if, respond, ret, query_select,
    query_update, query_insert, await_compare, await_hash in H.

(** Case analysis on the innermost scrutinee of the goal, repeatedly. *)
Ltac split_cases :=
  repeat match goal with
         | |- context [match ?x with _ => _ end] =>
             lazymatch x with
             | context [match _ with _ => _ end] => fail
             | _ => destruct x; cbn
             end
         end.

(* ================================================================== *)
(** ** The effects of a request, route by route *)
(* ================================================================== *)

(** An answer that goes with an untouched world: a failure result, the
    route's [catch] result, or one of the two answers forgot-password gives
    before it writes anything. *)
Definition refusal (r : route) (resp : response) : Prop :=
  (exists msg, resp = failure msg)
  \/ resp = ServerError (catch_message r)
  \/ (r = ApiForgotPassword
      /\ (resp = GenericSuccess \/ resp = SmtpNotConfigured)).

(** What a request on route [r] for the account [em] answers and does when
    it gets past its early returns: one case per place where a handler
    writes to the table, calls [bcrypt.compare] or sends mail. *)
Inductive store_change `{SecretHasher} (e : env) (body : option json)
  (em : string) (w : world) : route -> response -> world -> Prop :=
| register_inserts (pass : string) :
    field body "password" = Value pass ->
    select_by_email (users w) em = [] ->
    6 <= str_length pass ->
    store_change e body em w ApiRegister AccountCreated
      (inserted w em (bcrypt_hash pass 10 (salt e)))
| login_compares (pass : string) (user : user_row) (rest : list user_row)
    (ok : bool) :
    field body "password" = Value pass ->
    is_empty pass = false ->
    select_by_email (users w) em = user :: rest ->
    bcrypt_compare pass (password_hash user) = ok ->
    store_change e body em w ApiLogin
      (if ok then LoggedIn user else InvalidCredentials)
      (compared w)
| forgot_sets (user : user_row) (rest : list user_row) (sent : bool) :
    select_by_email (users w) em = user :: rest ->
    env_set (SMTP_USER e) = true ->
    env_set (SMTP_PASS e) = true ->
    mail_ok e = sent ->
    let otp := generateOtp6 (random e) in
    let challenged :=
      with_users w
        (update_by_email (users w) em
           (set_challenge (bcrypt_hash otp 10 (salt e))
              (now e + 5 * 60 * 1000))) in
    store_change e body em w ApiForgotPassword
      (if sent then OtpSent else ServerError (catch_message ApiForgotPassword))
      (if sent then mailed challenged em otp else challenged)
| verify_counts (otp : string) (user : user_row) (rest : list user_row)
    (h : string) (expires : Z) (ok : bool) :
    otp_field body = Value otp ->
    is_empty otp = false ->
    select_by_email (users w) em = user :: rest ->
    challenge user = Some (h, expires) ->
    now e <= expires ->
    reset_otp_attempts user < 5 ->
    bcrypt_compare otp h = ok ->
    store_change e body em w ApiVerifyResetOtp
      (if ok then Valid else InvalidOtp)
      (with_users (compared w)
         (update_by_email (users w) em increment_attempts))
| reset_rejects (otp : string) (user : user_row) (rest : list user_row)
    (h : string) (expires : Z) :
    otp_field body = Value otp ->
    select_by_email (users w) em = user :: rest ->
    challenge user = Some (h, expires) ->
    now e <= expires ->
    bcrypt_compare otp h = false ->
    store_change e body em w ApiResetPassword InvalidOtp (compared w)
| reset_sets (otp pw : string) (user : user_row) (rest : list user_row)
    (h : string) (expires : Z) :
    otp_field body = Value otp ->
    field body "newPassword" = Value pw ->
    is_empty otp = false ->
    is_empty pw = false ->
    select_by_email (users w) em = user :: rest ->
    challenge user = Some (h, expires) ->
    now e <= expires ->
    bcrypt_compare otp h = true ->
    store_change e body em w ApiResetPassword PasswordUpdated
      (with_users (compared w)
         (update_by_email (users w) em
            (set_password (bcrypt_hash pw 10 (salt e))))).

(** Case analysis on the innermost scrutinee of the goal, keeping what
    each case says. *)
Ltac split_cases_eqn :=
  repeat match goal with
         | |- context [match ?x with _ => _ end] =>
             lazymatch x with
             | context [match _ with _ => _ end] => fail
             | _ => destruct x eqn:?; cbn
             end
         end.


(* ================================================================== *)
(** ** Invariants of the table *)
(* ================================================================== *)

(** A string that [trim().toLowerCase()] leaves as it is. *)
Definition normalized (em : string) : Prop := toLowerCase (trim em) = em.

(** No two rows share an email. *)
Definition emails_unique (w : world) : Prop := NoDup (map email (users w)).

(** No two rows share an id, and every id is below the one the store
    assigns next. *)
Definition ids_unique (w : world) : Prop :=
  NoDup (map id (users w)) /\ Forall (fun u => id u < next_id w) (users w).

(** Every stored email is not empty and in normal form. *)
Definition emails_normalized (w : world) : Prop :=
  Forall (fun u => is_empty (email u) = false /\ normalized (email u)) (users w).


(** The OTP hash and the expiry of a row are set together and cleared
    together, and a stored OTP hash is not empty. *)
Definition challenges_consistent (w : world) : Prop :=
  Forall (fun u => (reset_otp_hash u = None <-> reset_otp_expires u = None)
                   /\ reset_otp_hash u <> Some "")
    (users w).

(** Every stored password hash came out of [bcrypt.hash(_, 10)] for a
    password that is not empty, and every stored OTP hash out of
    [bcrypt.hash(_, 10)] for a six-digit code: the decimal digits of an
    integer between 100000 and 999999. *)
Definition secrets_hashed `{SecretHasher} (w : world) : Prop :=
  Forall (fun u =>
            (exists pw slt, is_empty pw = false
                            /\ password_hash u = bcrypt_hash pw 10 slt)
            /\ (forall h, reset_otp_hash u = Some h ->
                  exists code slt,
                    100000 <= code <= 999999
                    /\ h = bcrypt_hash (string_of_Z code) 10 slt))
    (users w).

(** The worlds a server that starts on [w0] can be in when each
    [Math.random()] draws from [0, 1), as the runtime does: any number of
    requests, on any route, each run to completion. *)
Inductive reachable_drawing_below_one `{SecretHasher} (w0 : world)
  : world -> Prop :=
| drawing_below_one_start : reachable_drawing_below_one w0 w0
| drawing_below_one_request (w : world) (r : route) (e : env)
    (body : option json) :
    (0 <= random e)%Q -> (random e < 1)%Q ->
    reachable_drawing_below_one w0 w ->
    reachable_drawing_below_one w0 (snd (route_handler r e body w)).

(* ================================================================== *)
(** ** server.js: start-up, health check and a run of the server *)
(* ================================================================== *)

(** [async function initDB()], once it has finished: the pool is kept
    when [createPool] and the first [SELECT 1] succeeded ([connects]), and
    is [null] otherwise.  [db] is the content of the database the pool
    talks to. *)
Definition initDB (connects : bool) (db : world) : option world :=
  if connects then Some db else None.

(** The answer of [requireDB] when there is no pool. *)
Definition DbNotConnected : response :=
  res_status_json 500 (message_body false "DB not connected. Check MySQL config.").

(** The handler of GET /api/health: [SELECT 1] succeeds ([query_ok]) or
    throws into the [catch] block. *)
Definition health (query_ok : bool) : world -> response * world :=
  fun w =>
    if query_ok
    then (res_json (JObj [("ok", JBool true); ("db", JBool true);
                          ("message", JStr "Server + DB OK")]), w)
    else (res_status_json 500
            (JObj [("ok", JBool false); ("db", JBool false);
                   ("message", JStr "DB query failed")]), w).

(** A request to the application: one of the five POST routes, or the
    health check. *)
Inductive request : Type :=
| Post (r : route) (e : env) (body : option json)
| GetHealth (query_ok : bool).

(** One request through [requireDB] and its handler. *)
Definition handle `{SecretHasher} (req : request) (pool : option world)
  : response * option world :=
  match req with
  | Post r e body => app_post r e body pool
  | GetHealth query_ok => requireDB pool (health query_ok)
  end.

(** The requests that arrive after [initDB] has finished, answered one
    after the other. *)
Fixpoint serve `{SecretHasher} (requests : list request) (pool : option world)
  : list response * option world :=
  match requests with
  | [] => ([], pool)
  | req :: later =>
      let (resp, pool') := handle req pool in
      let (resps, pool'') := serve later pool' in
      (resp :: resps, pool'')
  end.

(* ================================================================== *)
(** ** server.js: requests that overlap *)
(* ================================================================== *)

(** An [async] handler gives way at each [await]: while it waits for a
    query or for bcrypt, the handlers of other requests run.  A request in
    flight is what is left of its handler: its response, or the operation
    it awaits, which acts on the store when it completes and leads to the
    rest of the handler. *)
Inductive task : Type :=
| Finished (resp : response)
| Awaiting (resume : world -> task * world).

(** Modelled from the spec: the persisted layout declares [email] unique,
    and the schema is not in the sources.  On a table that declares the
    key ([unique_key]), [INSERT INTO users (email, ...)] is rejected as a
    duplicate entry when a row already holds the email; on a table that
    does not, no insert is rejected. *)
Definition duplicate_entry (unique_key : bool) (tbl : list user_row)
  (em : string) : bool :=
  (unique_key && (rows_length (select_by_email tbl em) >? 0))%bool.

(** POST /api/register, from one [await] to the next.  An INSERT that
    the table rejects throws, and the [catch] block answers. *)
Definition register_task `{SecretHasher} (unique_key : bool) (e : env)
  (body : option json) : task :=
  match credentials body with
  | Thrown _ =>
      Finished (res_status_json 500 (message_body false "Server error (register)"))
  | Value (emailLower, pass) =>
      if (is_empty emailLower || is_empty pass)%bool
      then Finished (res_json (message_body false "Email & password required"))
      else if str_length pass <? 6
      then Finished (res_json (message_body false
                                 "Password must be at least 6 characters"))
      else
        (* await pool.query("SELECT id FROM users WHERE email = ?") *)
        Awaiting (fun w =>
          let exist := select_by_email (users w) emailLower in
          if rows_length exist >? 0
          then (Finished (res_json (message_body false "Email already exists")), w)
          else
            (* await bcrypt.hash(pass, 10) *)
            (Awaiting (fun w =>
               let hash := bcrypt_hash pass 10 (salt e) in
               (* await pool.query("INSERT INTO users ...") *)
               (Awaiting (fun w =>
                  if duplicate_entry unique_key (users w) emailLower
                  then (Finished (res_status_json 500
                                    (message_body false "Server error (register)")),
                        w)
                  else (Finished (res_json (message_body true "Account created")),
                        inserted w emailLower hash)),
                w)),
             w))
  end.

(** POST /api/auth/verify-reset-otp, from one [await] to the next. *)
Definition verify_reset_otp_task `{SecretHasher} (e : env)
  (body : option json) : task :=
  match email_field body with
  | Thrown _ =>
      Finished (res_status_json 500
                  (message_body false "Server error (verify-reset-otp)"))
  | Value emailLower =>
      match otp_field body with
      | Thrown _ =>
          Finished (res_status_json 500
                      (message_body false "Server error (verify-reset-otp)"))
      | Value otp =>
          if (is_empty emailLower || is_empty otp)%bool
          then Finished (res_json (message_body false "Email & OTP required"))
          else
            (* await pool.query("SELECT id, reset_otp_hash, ...") *)
            Awaiting (fun w =>
              match select_by_email (users w) emailLower with
              | [] => (Finished (res_json (message_body false "User not found")), w)
              | user :: _ =>
                  match challenge user with
                  | None =>
                      (Finished (res_json (message_body false "OTP not requested.")),
                       w)
                  | Some (otp_hash, expires) =>
                      if expires <? now e
                      then (Finished (res_json (message_body false
                                                  "OTP expired. Request again.")),
                            w)
                      else if or_zero (reset_otp_attempts user) >=? 5
                      then (Finished (res_json (message_body false
                                                  "Too many attempts. Request new OTP.")),
                            w)
                      else
                        (* await bcrypt.compare(otp, user.reset_otp_hash) *)
                        (Awaiting (fun w =>
                           let ok := bcrypt_compare otp otp_hash in
                           (* await pool.query("UPDATE users SET
                              reset_otp_attempts = reset_otp_attempts + 1 ...") *)
                           (Awaiting (fun w =>
                              (Finished
                                 (if negb ok
                                  then res_json (message_body false "Invalid OTP.")
                                  else res_json (message_body true "OTP verified.")),
                               with_users w
                                 (update_by_email (users w) emailLower
                                    increment_attempts))),
                            compared w)),
                         w)
                  end
              end)
      end
  end.

(** The request numbered [turn] among those in flight goes on from the
    [await] it is waiting at to its next one, or to its response. *)
Fixpoint resume_nth (turn : nat) (tasks : list task) (w : world)
  : list task * world :=
  match tasks with
  | [] => ([], w)
  | t :: rest =>
      match turn with
      | O =>
          match t with
          | Finished _ => (tasks, w)
          | Awaiting resume => let (t', w') := resume w in (t' :: rest, w')
          end
      | S turn' =>
          let (rest', w') := resume_nth turn' rest w in (t :: rest', w')
      end
  end.

(** The requests in flight take turns in the order [turns]. *)
Fixpoint interleave (turns : list nat) (tasks : list task) (w : world)
  : list task * world :=
  match turns with
  | [] => (tasks, w)
  | turn :: later =>
      let (tasks', w') := resume_nth turn tasks w in interleave later tasks' w'
  end.

(** A request no other request overlaps with: its handler goes from
    [await] to [await] until it has answered. *)
Fixpoint alone (awaits : nat) (t : task) (w : world) : task * world :=
  match awaits with
  | O => (t, w)
  | S awaits' =>
      match t with
      | Finished _ => (t, w)
      | Awaiting resume => let (t', w') := resume w in alone awaits' t' w'
      end
  end.


(** The orders in which two requests in flight can take [a] and [b]
    turns. *)
Fixpoint orders (a b : nat) : list (list nat) :=
  match a with
  | O => [repeat 1%nat b]
  | S a' =>
      (fix inner (b : nat) : list (list nat) :=
         match b with
         | O => [repeat 0%nat a]
         | S b' =>
             (map (cons 0%nat) (orders a' b) ++ map (cons 1%nat) (inner b'))%list
         end) b
  end.

(** Two requests of three awaits each that overlap: each takes its three
    turns, and neither has answered when the other one starts. *)
Definition overlapping (turns : list nat) : Prop :=
  In turns (orders 3 3)
  /\ turns <> [0; 0; 0; 1; 1; 1]%nat
  /\ turns <> [1; 1; 1; 0; 0; 0]%nat.

(* ================================================================== *)
(** * Properties *)
(* ================================================================== *)

(** ** Strings and decimal rendering *)

Lemma digit_char_is_digit (d : Z) :
  0 <= d <= 9 -> is_digit (digit_char d) = true.
Proof.
  intros Hd.
  assert (Hcases : d = 0 \/ d = 1 \/ d = 2 \/ d = 3 \/ d = 4 \/ d = 5
                   \/ d = 6 \/ d = 7 \/ d = 8 \/ d = 9) by lia.
  repeat (destruct Hcases as [-> | Hcases]; [reflexivity |]).
  subst d. reflexivity.
Qed.

Lemma digit_char_zero (d : Z) :
  0 <= d <= 9 -> digit_char d = "0"%char -> d = 0.
Proof.
  intros Hd.
  assert (Hcases : d = 0 \/ d = 1 \/ d = 2 \/ d = 3 \/ d = 4 \/ d = 5
                   \/ d = 6 \/ d = 7 \/ d = 8 \/ d = 9) by lia.
  repeat (destruct Hcases as [-> | Hcases]; [cbv; congruence |]).
  subst d. cbv. congruence.
Qed.

Lemma digit_not_space (c : ascii) : is_digit c = true -> is_space c = false.
Proof.
  destruct c as [[] [] [] [] [] [] [] []]; cbv; congruence.
Qed.

Lemma trimEnd_digits (s : string) : all_digits s = true -> trimEnd s = s.
Proof.
  induction s as [| c rest IH]; simpl; intros Hall; [reflexivity |].
  apply andb_true_iff in Hall. destruct Hall as [Hc Hrest].
  rewrite (IH Hrest). rewrite (digit_not_space c Hc).
  destruct rest; reflexivity.
Qed.

Lemma trim_digits (s : string) : all_digits s = true -> trim s = s.
Proof.
  intros Hall. unfold trim.
  destruct s as [| c rest]; [reflexivity |].
  simpl in Hall. apply andb_true_iff in Hall. destruct Hall as [Hc Hrest].
  cbn [trimStart]. rewrite (digit_not_space c Hc).
  apply trimEnd_digits. simpl. now rewrite Hc, Hrest.
Qed.

Lemma decimal_six_digits (fuel : nat) (n : Z) :
  (6 <= fuel)%nat -> 100000 <= n <= 999999 ->
  decimal fuel n "" = six_digits n.
Proof.
  intros Hfuel Hn.
  do 6 (destruct fuel as [| fuel]; [lia |]).
  assert (H1 : n / 10 / 10 = n / 100) by (rewrite Z.div_div by lia; reflexivity).
  assert (H2 : n / 100 / 10 = n / 1000) by (rewrite Z.div_div by lia; reflexivity).
  assert (H3 : n / 1000 / 10 = n / 10000) by (rewrite Z.div_div by lia; reflexivity).
  assert (H4 : n / 10000 / 10 = n / 100000) by (rewrite Z.div_div by lia; reflexivity).
  assert (B1 : 10000 <= n / 10 <= 99999) by (Z.div_mod_to_equations; lia).
  assert (B2 : 1000 <= n / 100 <= 9999) by (Z.div_mod_to_equations; lia).
  assert (B3 : 100 <= n / 1000 <= 999) by (Z.div_mod_to_equations; lia).
  assert (B4 : 10 <= n / 10000 <= 99) by (Z.div_mod_to_equations; lia).
  assert (B5 : 1 <= n / 100000 <= 9) by (Z.div_mod_to_equations; lia).
  cbn [decimal].
  replace (n <? 10) with false by (symmetry; apply Z.ltb_ge; lia).
  replace (n / 10 <? 10) with false by (symmetry; apply Z.ltb_ge; lia).
  rewrite H1.
  replace (n / 100 <? 10) with false by (symmetry; apply Z.ltb_ge; lia).
  rewrite H2.
  replace (n / 1000 <? 10) with false by (symmetry; apply Z.ltb_ge; lia).
  rewrite H3.
  replace (n / 10000 <? 10) with false by (symmetry; apply Z.ltb_ge; lia).
  rewrite H4.
  replace (n / 100000 <? 10) with true by (symmetry; apply Z.ltb_lt; lia).
  unfold six_digits. rewrite (Z.mod_small (n / 100000) 10) by lia.
  reflexivity.
Qed.

Lemma string_of_Z_six_digits (n : Z) :
  100000 <= n <= 999999 -> string_of_Z n = six_digits n.
Proof.
  intros Hn. unfold string_of_Z.
  replace (n <? 0) with false by (symmetry; apply Z.ltb_ge; lia).
  apply decimal_six_digits; [| exact Hn].
  assert (Hlog : 16 <= Z.log2 n).
  { apply Z.log2_le_pow2; [lia |]. change (2 ^ 16) with 65536. lia. }
  lia.
Qed.

Lemma six_digits_all_digits (n : Z) :
  100000 <= n <= 999999 -> all_digits (six_digits n) = true.
Proof.
  intros Hn. unfold six_digits. cbn [all_digits].
  assert (B5 : 1 <= n / 100000 <= 9) by (Z.div_mod_to_equations; lia).
  rewrite !digit_char_is_digit;
    try reflexivity; try lia;
    match goal with
    | |- 0 <= ?x mod 10 <= 9 => pose proof (Z.mod_pos_bound x 10); lia
    end.
Qed.

(** ** Numbers *)

(** Powers of two. *)

Lemma pow2_pos (k : Z) : (0 < 2 ^ k)%Q.
Proof. apply Qpower_0_lt. reflexivity. Qed.

Lemma pow2_le (j k : Z) : j <= k -> (2 ^ j <= 2 ^ k)%Q.
Proof. intros Hjk. apply Qpower_le_compat_l; [exact Hjk | discriminate]. Qed.

Lemma pow2_lt (j k : Z) : j < k -> (2 ^ j < 2 ^ k)%Q.
Proof. intros Hjk. apply Qpower_lt_compat_l; [exact Hjk | reflexivity]. Qed.

Lemma pow2_plus (j k : Z) : (2 ^ (j + k) == 2 ^ j * 2 ^ k)%Q.
Proof. apply Qpower_plus. discriminate. Qed.

Lemma pow2_inject (k : Z) : 0 <= k -> (2 ^ k == inject_Z (2 ^ k))%Q.
Proof. intros Hk. symmetry. exact (Zpower_Qpower 2 k Hk). Qed.

(** Dividing by [2 ^ q] and multiplying back. *)
Lemma scale_back (x : Q) (q : Z) : (x / 2 ^ q * 2 ^ q == x)%Q.
Proof.
  pose proof (pow2_pos q) as Hq. field. intros H0. rewrite H0 in Hq.
  discriminate.
Qed.

Lemma scale_le (x y : Q) (q : Z) : (x <= y * 2 ^ q)%Q -> (x / 2 ^ q <= y)%Q.
Proof. intros Hxy. apply Qle_shift_div_r; [apply pow2_pos | exact Hxy]. Qed.

Lemma scale_lt (x y : Q) (q : Z) : (x < y * 2 ^ q)%Q -> (x / 2 ^ q < y)%Q.
Proof. intros Hxy. apply Qlt_shift_div_r; [apply pow2_pos | exact Hxy]. Qed.

Lemma scale_ge (x y : Q) (q : Z) : (y * 2 ^ q <= x)%Q -> (y <= x / 2 ^ q)%Q.
Proof. intros Hxy. apply Qle_shift_div_l; [apply pow2_pos | exact Hxy]. Qed.

(** The binade of a positive rational is the one that holds it. *)

Lemma binade_spec (x : Q) :
  (0 < x)%Q -> (2 ^ binade x <= x /\ x < 2 ^ (binade x + 1))%Q.
Proof.
  intros Hx. destruct x as [n d].
  assert (Hn : 0 < n) by (unfold Qlt in Hx; cbn in Hx; lia).
  unfold binade. cbn [Qnum Qden].
  rewrite (Z.abs_eq n) by lia.
  rewrite (Qabs_pos (n # d)) by (apply Qlt_le_weak; exact Hx).
  set (a := Z.log2 n). set (b := Z.log2 (Z.pos d)).
  assert (Ha : 2 ^ a <= n < 2 ^ (a + 1)).
  { pose proof (Z.log2_spec n Hn) as H. unfold a. rewrite <- Z.add_1_r in H. exact H. }
  assert (Hb : 2 ^ b <= Z.pos d < 2 ^ (b + 1)).
  { pose proof (Z.log2_spec (Z.pos d) (Pos2Z.is_pos d)) as H. unfold b.
    rewrite <- Z.add_1_r in H. exact H. }
  assert (Ha0 : 0 <= a) by apply Z.log2_nonneg.
  assert (Hb0 : 0 <= b) by apply Z.log2_nonneg.
  assert (HA : 0 < 2 ^ a) by (apply Z.pow_pos_nonneg; lia).
  assert (HB : 0 < 2 ^ b) by (apply Z.pow_pos_nonneg; lia).
  assert (Hnd : (n # d == inject_Z n / inject_Z (Z.pos d))%Q) by apply Qmake_Qdiv.
  assert (Hd : (0 < inject_Z (Z.pos d))%Q) by reflexivity.
  (* strictly between 2^(a-b-1) and 2^(a-b+1) *)
  assert (Hlow : (2 ^ (a - b - 1) <= n # d)%Q).
  { rewrite Hnd. apply Qle_shift_div_l; [exact Hd |].
    replace (a - b - 1) with (a - (b + 1)) by lia.
    rewrite Qpower_minus by discriminate.
    rewrite (pow2_inject a), (pow2_inject (b + 1)) by lia.
    unfold Qdiv. rewrite <- Qmult_assoc, (Qmult_comm (/ _)), Qmult_assoc.
    apply Qle_shift_div_r.
    - rewrite <- (pow2_inject (b + 1)) by lia. apply pow2_pos.
    - rewrite <- !inject_Z_mult. rewrite <- Zle_Qle. nia. }
  assert (Hhigh : (n # d < 2 ^ (a - b + 1))%Q).
  { rewrite Hnd. apply Qlt_shift_div_r; [exact Hd |].
    replace (a - b + 1) with (a + 1 - b) by lia.
    rewrite Qpower_minus by discriminate.
    rewrite (pow2_inject (a + 1)), (pow2_inject b) by lia.
    unfold Qdiv. rewrite <- Qmult_assoc, (Qmult_comm (/ _)), Qmult_assoc.
    apply Qlt_shift_div_l.
    - rewrite <- (pow2_inject b) by lia. apply pow2_pos.
    - rewrite <- !inject_Z_mult. rewrite <- Zlt_Qlt. nia. }
  destruct (Qle_bool (2 ^ (a - b)) (n # d)) eqn:Hcmp.
  - apply Qle_bool_iff in Hcmp. split; [exact Hcmp | exact Hhigh].
  - split; [exact Hlow |].
    replace (a - b - 1 + 1) with (a - b) by lia.
    apply Qnot_le_lt. intros Hle. apply Qle_bool_iff in Hle. congruence.
Qed.

Lemma binade_unique (x : Q) (k : Z) :
  (2 ^ k <= x)%Q -> (x < 2 ^ (k + 1))%Q -> binade x = k.
Proof.
  intros Hlo Hhi.
  assert (Hx : (0 < x)%Q) by (eapply Qlt_le_trans; [apply (pow2_pos k) | exact Hlo]).
  destruct (binade_spec x Hx) as [Hlo' Hhi'].
  assert (H1 : k < binade x + 1).
  { apply (Qpower_lt_compat_l_inv 2); [| reflexivity].
    eapply Qle_lt_trans; [exact Hlo | exact Hhi']. }
  assert (H2 : binade x < k + 1).
  { apply (Qpower_lt_compat_l_inv 2); [| reflexivity].
    eapply Qle_lt_trans; [exact Hlo' | exact Hhi]. }
  lia.
Qed.

Lemma binade_below (x : Q) (k : Z) :
  (0 < x)%Q -> (x < 2 ^ k)%Q -> binade x < k.
Proof.
  intros Hx Hhi. destruct (binade_spec x Hx) as [Hlo _].
  apply (Qpower_lt_compat_l_inv 2); [| reflexivity].
  eapply Qle_lt_trans; [exact Hlo | exact Hhi].
Qed.

(** Rounding to the nearest integer. *)

Lemma round_half_even_le (x : Q) (m : Z) :
  (x < inject_Z m + (1 # 2))%Q -> round_half_even x <= m.
Proof.
  intros Hx. unfold round_half_even.
  pose proof (Qfloor_le x) as Hfl. pose proof (Qlt_floor x) as Hlt.
  rewrite inject_Z_plus in Hlt. change (inject_Z 1) with 1%Q in Hlt.
  assert (Hn : Qfloor x <= m).
  { assert (H : (inject_Z (Qfloor x) < inject_Z (m + 1))%Q).
    { rewrite inject_Z_plus. change (inject_Z 1) with 1%Q. lra. }
    rewrite <- Zlt_Qlt in H. lia. }
  destruct (Z.eq_dec (Qfloor x) m) as [Heq | Hne].
  - rewrite Heq in *.
    destruct (Qcompare_spec (x - inject_Z m) (1 # 2)) as [H | H | H];
      [lra | lia | lra].
  - destruct (x - inject_Z (Qfloor x) ?= 1 # 2)%Q; [destruct (Z.even _) | |]; lia.
Qed.

Lemma round_half_even_ge (x : Q) (m : Z) :
  (inject_Z m - (1 # 2) < x)%Q -> m <= round_half_even x.
Proof.
  intros Hx. unfold round_half_even.
  pose proof (Qfloor_le x) as Hfl. pose proof (Qlt_floor x) as Hlt.
  rewrite inject_Z_plus in Hlt. change (inject_Z 1) with 1%Q in Hlt.
  assert (Hn : m - 1 <= Qfloor x).
  { assert (H : (inject_Z (m - 1) < inject_Z (Qfloor x + 1))%Q).
    { unfold Z.sub. rewrite !inject_Z_plus, inject_Z_opp.
      change (inject_Z 1) with 1%Q. lra. }
    rewrite <- Zlt_Qlt in H. lia. }
  destruct (Z.eq_dec (Qfloor x) (m - 1)) as [Heq | Hne].
  - rewrite Heq in *. unfold Z.sub in Hfl, Hlt |- *.
    rewrite !inject_Z_plus, inject_Z_opp in *.
    change (inject_Z 1) with 1%Q in *.
    destruct (Qcompare_spec (x - (inject_Z m + - 1%Q)) (1 # 2)) as [H | H | H];
      [lra | lra | lia].
  - destruct (x - inject_Z (Qfloor x) ?= 1 # 2)%Q; [destruct (Z.even _) | |]; lia.
Qed.

Lemma round_half_even_near (x : Q) :
  (x - (1 # 2) <= inject_Z (round_half_even x) <= x + (1 # 2))%Q.
Proof.
  unfold round_half_even.
  pose proof (Qfloor_le x) as Hfl. pose proof (Qlt_floor x) as Hlt.
  rewrite inject_Z_plus in Hlt. change (inject_Z 1) with 1%Q in Hlt.
  destruct (Qcompare_spec (x - inject_Z (Qfloor x)) (1 # 2)) as [H | H | H].
  - destruct (Z.even _); [lra |].
    rewrite inject_Z_plus. change (inject_Z 1) with 1%Q. lra.
  - lra.
  - rewrite inject_Z_plus. change (inject_Z 1) with 1%Q. lra.
Qed.

Lemma round_half_even_comp (x y : Q) : x == y -> round_half_even x = round_half_even y.
Proof.
  intros Hxy. unfold round_half_even.
  rewrite (Qfloor_comp x y Hxy).
  replace (x - inject_Z (Qfloor y) ?= 1 # 2)%Q with (y - inject_Z (Qfloor y) ?= 1 # 2)%Q;
    [reflexivity |].
  apply Qcompare_comp; [rewrite Hxy |]; reflexivity.
Qed.

Lemma round_half_even_Z (m : Z) : round_half_even (inject_Z m) = m.
Proof.
  apply Z.le_antisymm.
  - apply round_half_even_le. lra.
  - apply round_half_even_ge. lra.
Qed.

Lemma to_double_zero (x : Q) : x == 0 -> to_double x == 0.
Proof.
  intros Hx. unfold to_double. generalize (last_place x). intros q.
  rewrite (round_half_even_comp (x / 2 ^ q) (inject_Z 0)).
  - rewrite round_half_even_Z. apply Qmult_0_l.
  - rewrite Hx. unfold Qdiv. apply Qmult_0_l.
Qed.

Lemma double_below_zero (x : Q) : x == 0 -> double_below x == 0.
Proof.
  intros Hx. unfold double_below. generalize (last_place x). intros q.
  rewrite (Qfloor_comp (x / 2 ^ q) (inject_Z 0)).
  - rewrite Qfloor_Z. apply Qmult_0_l.
  - rewrite Hx. unfold Qdiv. apply Qmult_0_l.
Qed.

Lemma last_place_below (x : Q) (j : Z) :
  (0 < x)%Q -> (x < 2 ^ (j + 53))%Q -> -1074 <= j -> last_place x <= j.
Proof.
  intros Hx Hhi Hj. pose proof (binade_below x _ Hx Hhi) as Hb.
  unfold last_place. lia.
Qed.

(** A multiple of [2 ^ j], counted in units of a finer [2 ^ q]. *)
Lemma finer_grid (K j q : Z) :
  q <= j -> (inject_Z K * 2 ^ j == inject_Z (K * 2 ^ (j - q)) * 2 ^ q)%Q.
Proof.
  intros Hq. rewrite inject_Z_mult, <- (pow2_inject (j - q)) by lia.
  rewrite <- Qmult_assoc, <- pow2_plus.
  replace (j - q + q) with j by lia. reflexivity.
Qed.

Lemma to_double_le (x B : Q) (K j : Z) :
  (0 <= x)%Q -> (x < 2 ^ (j + 53))%Q -> -1074 <= j ->
  (B == inject_Z K * 2 ^ j)%Q -> (x <= B)%Q -> (to_double x <= B)%Q.
Proof.
  intros Hx Hhi Hj HB HxB.
  destruct (Qlt_le_dec 0 x) as [Hpos | Hzero].
  - pose proof (last_place_below x j Hpos Hhi Hj) as Hq.
    unfold to_double. set (q := last_place x) in *.
    rewrite HB, (finer_grid K j q Hq).
    apply Qmult_le_compat_r; [| apply Qlt_le_weak, pow2_pos].
    rewrite <- Zle_Qle. apply round_half_even_le.
    apply Qle_lt_trans with (inject_Z (K * 2 ^ (j - q))); [| lra].
    apply scale_le. rewrite <- (finer_grid K j q Hq), <- HB. exact HxB.
  - rewrite (to_double_zero x) by (apply Qle_antisym; assumption). lra.
Qed.

Lemma to_double_ge (x B : Q) (K j : Z) :
  (0 <= x)%Q -> (x < 2 ^ (j + 53))%Q -> -1074 <= j ->
  (B == inject_Z K * 2 ^ j)%Q -> (B <= x)%Q -> (B <= to_double x)%Q.
Proof.
  intros Hx Hhi Hj HB HxB.
  destruct (Qlt_le_dec 0 x) as [Hpos | Hzero].
  - pose proof (last_place_below x j Hpos Hhi Hj) as Hq.
    unfold to_double. set (q := last_place x) in *.
    rewrite HB, (finer_grid K j q Hq).
    apply Qmult_le_compat_r; [| apply Qlt_le_weak, pow2_pos].
    rewrite <- Zle_Qle. apply round_half_even_ge.
    apply Qlt_le_trans with (inject_Z (K * 2 ^ (j - q))); [lra |].
    apply scale_ge. rewrite <- (finer_grid K j q Hq), <- HB. exact HxB.
  - rewrite (to_double_zero x) by (apply Qle_antisym; assumption). lra.
Qed.

(** Rounding moves a value by at most half a unit in the last place. *)
Lemma to_double_near (x : Q) (j : Z) :
  (0 <= x)%Q -> (x < 2 ^ (j + 53))%Q -> -1074 <= j ->
  (x - 2 ^ j * (1 # 2) <= to_double x /\ to_double x <= x + 2 ^ j * (1 # 2))%Q.
Proof.
  intros Hx Hhi Hj.
  destruct (Qlt_le_dec 0 x) as [Hpos | Hzero].
  - pose proof (last_place_below x j Hpos Hhi Hj) as Hq.
    unfold to_double. set (q := last_place x) in *.
    pose proof (round_half_even_near (x / 2 ^ q)) as [Hlo Hup].
    pose proof (pow2_pos q) as Hq0. pose proof (pow2_le q j Hq) as Hqj.
    pose proof (scale_back x q) as Hback.
    set (y := (x / 2 ^ q)%Q) in *. set (n := inject_Z (round_half_even y)) in *.
    set (u := (2 ^ q)%Q) in *. set (v := (2 ^ j)%Q) in *.
    assert (H1 : ((y - (1 # 2)) * u <= n * u)%Q)
      by (apply Qmult_le_compat_r; [exact Hlo | lra]).
    assert (H2 : (n * u <= (y + (1 # 2)) * u)%Q)
      by (apply Qmult_le_compat_r; [exact Hup | lra]).
    split; lra.
  - pose proof (pow2_pos j) as Hj0.
    rewrite (to_double_zero x) by (apply Qle_antisym; assumption).
    clear Hhi. set (v := (2 ^ j)%Q) in *. split; lra.
Qed.

(** The double at or next below [x]. *)
Lemma double_below_near (x : Q) (j : Z) :
  (0 <= x)%Q -> (x < 2 ^ (j + 53))%Q -> -1074 <= j ->
  (0 <= double_below x /\ double_below x <= x /\ x < double_below x + 2 ^ j)%Q.
Proof.
  intros Hx Hhi Hj.
  destruct (Qlt_le_dec 0 x) as [Hpos | Hzero].
  - pose proof (last_place_below x j Hpos Hhi Hj) as Hq.
    unfold double_below. set (q := last_place x) in *.
    pose proof (pow2_pos q) as Hq0. pose proof (pow2_le q j Hq) as Hqj.
    pose proof (scale_back x q) as Hback.
    pose proof (Qfloor_le (x / 2 ^ q)) as Hfl.
    pose proof (Qlt_floor (x / 2 ^ q)) as Hlt.
    rewrite inject_Z_plus in Hlt. change (inject_Z 1) with 1%Q in Hlt.
    assert (H0 : 0 <= Qfloor (x / 2 ^ q)).
    { rewrite <- (Qfloor_Z 0). apply Qfloor_resp_le. apply scale_ge.
      rewrite Qmult_0_l. exact Hx. }
    rewrite Zle_Qle in H0.
    set (y := (x / 2 ^ q)%Q) in *. set (n := inject_Z (Qfloor y)) in *.
    set (u := (2 ^ q)%Q) in *. set (v := (2 ^ j)%Q) in *.
    assert (H1 : (n * u <= y * u)%Q)
      by (apply Qmult_le_compat_r; [exact Hfl | lra]).
    assert (H2 : (y * u < (n + 1) * u)%Q)
      by (apply Qmult_lt_compat_r; [lra | exact Hlt]).
    assert (H3 : (0 * u <= n * u)%Q)
      by (apply Qmult_le_compat_r; [exact H0 | lra]).
    repeat split; lra.
  - pose proof (pow2_pos j) as Hj0.
    rewrite (double_below_zero x) by (apply Qle_antisym; assumption).
    clear Hhi. set (v := (2 ^ j)%Q) in *. repeat split; lra.
Qed.

(** Below 1 the doubles stop at 1 - 2^-53. *)
Lemma double_below_one (x : Q) :
  (0 <= x)%Q -> (x < 1)%Q -> (double_below x <= 1 - 2 ^ (-53))%Q.
Proof.
  intros Hx Hhi.
  destruct (Qlt_le_dec x (1 # 2)) as [Hsmall | Hbig].
  - destruct (double_below_near x (-53) Hx) as (_ & Hle & _); [| lia |].
    + change (2 ^ (-53 + 53))%Q with 1%Q. exact Hhi.
    + change (2 ^ (-53))%Q with (1 # 9007199254740992)%Q. lra.
  - assert (Hb : binade x = -1).
    { apply binade_unique.
      - change (2 ^ (-1))%Q with (1 # 2)%Q. exact Hbig.
      - change (2 ^ (-1 + 1))%Q with 1%Q. exact Hhi. }
    unfold double_below, last_place. rewrite Hb.
    change (Z.max (-1 - 52) (-1074)) with (-53).
    assert (Hn : Qfloor (x / 2 ^ (-53)) <= 2 ^ 53 - 1).
    { assert (H : (inject_Z (Qfloor (x / 2 ^ (-53))) < inject_Z (2 ^ 53))%Q).
      { eapply Qle_lt_trans; [apply Qfloor_le |].
        apply scale_lt.
        change (inject_Z (2 ^ 53) * 2 ^ (-53))%Q with (9007199254740992 * (1 # 9007199254740992))%Q.
        lra. }
      rewrite <- Zlt_Qlt in H. lia. }
    rewrite Zle_Qle in Hn.
    change (inject_Z (2 ^ 53 - 1)) with (9007199254740991%Q) in Hn.
    change (2 ^ (-53))%Q with (1 # 9007199254740992)%Q.
    set (n := inject_Z _) in *. lra.
Qed.

Lemma Math_random_range (r : Q) :
  (0 <= r)%Q -> (r < 1)%Q ->
  (0 <= Math_random r /\ Math_random r <= 1 - (1 # 9007199254740992)
   /\ Math_random r <= r /\ r < Math_random r + (1 # 9007199254740992))%Q.
Proof.
  intros Hlo Hhi. unfold Math_random.
  destruct (double_below_near r (-53) Hlo) as (H0 & Hle & Hlt); [exact Hhi | lia |].
  pose proof (double_below_one r Hlo Hhi) as Hone.
  change (2 ^ (-53))%Q with (1 # 9007199254740992)%Q in Hlt, Hone.
  repeat split; assumption.
Qed.

(** [Math.random()] returns the draw when the draw is a Number. *)
Lemma Math_random_of_Number (m e : Z) :
  0 <= m < 2 ^ 53 -> -1074 <= e ->
  (Math_random (inject_Z m * 2 ^ e) == inject_Z m * 2 ^ e)%Q.
Proof.
  intros Hm He. unfold Math_random.
  set (x := (inject_Z m * 2 ^ e)%Q).
  destruct (Z.eq_dec m 0) as [-> | Hm0].
  - assert (Hx : (x == 0)%Q) by (unfold x; apply Qmult_0_l).
    rewrite (double_below_zero x Hx). symmetry. exact Hx.
  - assert (Hx : (0 < x)%Q).
    { unfold x. apply Qmult_lt_0_compat; [| apply pow2_pos].
      change 0%Q with (inject_Z 0). rewrite <- Zlt_Qlt. lia. }
    assert (Hhi : (x < 2 ^ (e + 53))%Q).
    { unfold x. rewrite Z.add_comm, pow2_plus.
      apply Qmult_lt_compat_r; [apply pow2_pos |].
      rewrite (pow2_inject 53) by lia. rewrite <- Zlt_Qlt. lia. }
    pose proof (last_place_below x e Hx Hhi He) as Hq.
    unfold double_below. set (q := last_place x) in *.
    assert (Hgrid : (x / 2 ^ q == inject_Z (m * 2 ^ (e - q)))%Q).
    { unfold x. rewrite (finer_grid m e q Hq).
      rewrite Qdiv_mult_l; [reflexivity |].
      intros H0. pose proof (pow2_pos q) as Hpos. rewrite H0 in Hpos.
      discriminate. }
    rewrite (Qfloor_comp _ _ Hgrid), Qfloor_Z.
    unfold x. symmetry. apply finer_grid, Hq.
Qed.

(** What [Math.random()] returns is a Number: an integer below 2^53 times
    a power of two that is at least 2^-1074. *)
Lemma Math_random_Number (r : Q) :
  (0 < r)%Q ->
  exists m e : Z,
    0 <= m < 2 ^ 53 /\ -1074 <= e
    /\ (Math_random r == inject_Z m * 2 ^ e)%Q.
Proof.
  intros Hr. unfold Math_random, double_below.
  exists (Qfloor (r / 2 ^ last_place r)), (last_place r).
  split; [| split; [unfold last_place; lia | reflexivity]].
  destruct (binade_spec r Hr) as [_ Hhi].
  set (q := last_place r).
  assert (Hq : binade r + 1 <= q + 53) by (unfold q, last_place; lia).
  split.
  - rewrite <- (Qfloor_Z 0). apply Qfloor_resp_le. apply scale_ge.
    rewrite Qmult_0_l. apply Qlt_le_weak, Hr.
  - assert (H : (inject_Z (Qfloor (r / 2 ^ q)) < inject_Z (2 ^ 53))%Q).
    { eapply Qle_lt_trans; [apply Qfloor_le |].
      apply scale_lt. rewrite <- (pow2_inject 53) by lia.
      rewrite <- pow2_plus.
      eapply Qlt_le_trans; [exact Hhi |]. apply pow2_le. lia. }
    rewrite <- Zlt_Qlt in H. exact H.
Qed.

(** The product [Math.random() * 900000] in doubles. *)
Lemma product_range (d : Q) :
  (0 <= d)%Q -> (d <= 1 - (1 # 9007199254740992))%Q ->
  (0 <= number_mul d 900000
   /\ number_mul d 900000 <= 900000 - (1 # 8589934592)
   /\ d * 900000 - (1 # 17179869184) <= number_mul d 900000
   /\ number_mul d 900000 <= d * 900000 + (1 # 17179869184))%Q.
Proof.
  intros Hlo Hhi. unfold number_mul.
  set (y := (d * 900000)%Q).
  assert (Hy0 : (0 <= y)%Q) by (unfold y; lra).
  assert (Hy1 : (y <= 900000 - (900000 # 9007199254740992))%Q) by (unfold y; lra).
  assert (Hy2 : (y < 2 ^ (-33 + 53))%Q).
  { change (2 ^ (-33 + 53))%Q with 1048576%Q. lra. }
  split; [| split].
  - apply (to_double_ge y 0 0 (-33)); try assumption; [lia | reflexivity].
  - destruct (Qlt_le_dec y 524288) as [Hsmall | Hbig].
    + apply Qle_trans with 524288%Q; [| lra].
      apply (to_double_le y 524288 4503599627370496 (-33)); try assumption;
        [lia | reflexivity | lra].
    + assert (Hb : binade y = 19).
      { apply binade_unique.
        - change (2 ^ 19)%Q with 524288%Q. exact Hbig.
        - change (2 ^ (19 + 1))%Q with 1048576%Q. lra. }
      unfold to_double, last_place. rewrite Hb.
      change (Z.max (19 - 52) (-1074)) with (-33).
      assert (Hn : round_half_even (y / 2 ^ (-33)) <= 900000 * 2 ^ 33 - 1).
      { apply round_half_even_le. apply scale_lt.
        change (2 ^ (-33))%Q with (1 # 8589934592)%Q.
        change (inject_Z (900000 * 2 ^ 33 - 1)) with 7730941132799999%Q. lra. }
      rewrite Zle_Qle in Hn.
      change (inject_Z (900000 * 2 ^ 33 - 1)) with 7730941132799999%Q in Hn.
      change (2 ^ (-33))%Q with (1 # 8589934592)%Q.
      set (n := inject_Z _) in *. lra.
  - destruct (to_double_near y (-33) Hy0 Hy2) as [H1 H2]; [lia |].
    change (2 ^ (-33))%Q with (1 # 8589934592)%Q in H1, H2.
    split; lra.
Qed.

(** The sum [100000 + p] in doubles. *)
Lemma sum_range (p : Q) :
  (0 <= p)%Q -> (p <= 900000 - (1 # 8589934592))%Q ->
  (100000 <= number_add 100000 p
   /\ number_add 100000 p <= 1000000 - (1 # 8589934592)
   /\ 100000 + p - (1 # 17179869184) <= number_add 100000 p
   /\ number_add 100000 p <= 100000 + p + (1 # 17179869184))%Q.
Proof.
  intros Hlo Hhi. unfold number_add.
  set (x := (100000 + p)%Q).
  assert (Hx0 : (0 <= x)%Q) by (unfold x; lra).
  assert (Hx1 : (100000 <= x)%Q) by (unfold x; lra).
  assert (Hx2 : (x <= 1000000 - (1 # 8589934592))%Q) by (unfold x; lra).
  assert (Hx3 : (x < 2 ^ (-33 + 53))%Q).
  { change (2 ^ (-33 + 53))%Q with 1048576%Q. lra. }
  split; [| split].
  - apply (to_double_ge x 100000 (100000 * 2 ^ 33) (-33)); try assumption;
      [lia | reflexivity].
  - apply (to_double_le x _ (1000000 * 2 ^ 33 - 1) (-33)); try assumption;
      [lia | reflexivity].
  - destruct (to_double_near x (-33) Hx0 Hx3) as [H1 H2]; [lia |].
    change (2 ^ (-33))%Q with (1 # 8589934592)%Q in H1, H2.
    split; lra.
Qed.

(** The number under [Math.floor] in [generateOtp6], against the exact value of 100000 + 900000 r. *)
Lemma otp_value_range (r : Q) :
  (0 <= r)%Q -> (r < 1)%Q ->
  let s := number_add 100000 (number_mul (Math_random r) 900000) in
  (100000 <= s /\ s <= 1000000 - (1 # 8589934592)
   /\ s - (1 # 8589934592) <= 100000 + r * 900000
   /\ 100000 + r * 900000 < s + (1 # 4294967296))%Q.
Proof.
  intros Hlo Hhi s.
  destruct (Math_random_range r Hlo Hhi) as (Hd0 & Hd1 & Hd2 & Hd3).
  destruct (product_range _ Hd0 Hd1) as (Hp0 & Hp1 & Hp2 & Hp3).
  destruct (sum_range _ Hp0 Hp1) as (Hs0 & Hs1 & Hs2 & Hs3).
  fold s in Hs0, Hs1, Hs2, Hs3.
  set (d := Math_random r) in *. set (p := number_mul d 900000) in *.
  repeat split; lra.
Qed.

(** The Number arithmetic of [generateOtp6] against the IEEE 754
    operations of the standard library, at the sample draws. *)
Example number_operations_agree_with_SpecFloat :
  forallb agrees_with_SpecFloat sample_draws = true.
Proof. vm_compute. reflexivity. Qed.

(** The integer part drawn by [generateOtp6]. *)
Lemma otp_number_range (r : Q) :
  (0 <= r)%Q -> (r < 1)%Q ->
  100000
  <= Qfloor (number_add 100000 (number_mul (Math_random r) 900000))
  <= 999999.
Proof.
  intros Hlo Hhi.
  destruct (otp_value_range r Hlo Hhi) as (Hs0 & Hs1 & _).
  set (s := number_add _ _) in *.
  split.
  - rewrite <- (Qfloor_Z 100000). apply Qfloor_resp_le. exact Hs0.
  - assert (Hlt : (inject_Z (Qfloor s) < inject_Z 1000000)%Q).
    { eapply Qle_lt_trans; [apply Qfloor_le |].
      change (inject_Z 1000000) with 1000000%Q. lra. }
    rewrite <- Zlt_Qlt in Hlt. lia.
Qed.

Lemma generateOtp6_six_digits (r : Q) :
  (0 <= r)%Q -> (r < 1)%Q ->
  generateOtp6 r
  = six_digits
      (Qfloor (number_add 100000 (number_mul (Math_random r) 900000))).
Proof.
  intros Hlo Hhi. unfold generateOtp6.
  apply string_of_Z_six_digits, otp_number_range; assumption.
Qed.

Lemma generateOtp6_digits (r : Q) :
  (0 <= r)%Q -> (r < 1)%Q -> all_digits (generateOtp6 r) = true.
Proof.
  intros Hlo Hhi. rewrite generateOtp6_six_digits by assumption.
  apply six_digits_all_digits, otp_number_range; assumption.
Qed.

Lemma generateOtp6_not_empty (r : Q) :
  (0 <= r)%Q -> (r < 1)%Q -> is_empty (generateOtp6 r) = false.
Proof.
  intros Hlo Hhi. rewrite generateOtp6_six_digits by assumption. reflexivity.
Qed.

Lemma generateOtp6_trim (r : Q) :
  (0 <= r)%Q -> (r < 1)%Q -> trim (generateOtp6 r) = generateOtp6 r.
Proof.
  intros Hlo Hhi. apply trim_digits, generateOtp6_digits; assumption.
Qed.

(** ** The store *)

Lemma select_update_same (tbl : list user_row) (em : string)
  (set : user_row -> user_row) :
  (forall u, email (set u) = email u) ->
  select_by_email (update_by_email tbl em set) em
  = map set (select_by_email tbl em).
Proof.
  intros Hkeep. unfold select_by_email, update_by_email.
  induction tbl as [| u tbl IH]; [reflexivity |].
  cbn [map filter].
  destruct (String.eqb (email u) em) eqn:Hu.
  - rewrite Hkeep, Hu. cbn [map]. now rewrite IH.
  - rewrite Hu. exact IH.
Qed.

Lemma select_insert_fresh (tbl : list user_row) (em h : string) (i : Z) :
  select_by_email tbl em = [] ->
  select_by_email (tbl ++ [new_user i em h]) em = [new_user i em h].
Proof.
  intros Hnone. unfold select_by_email in *.
  rewrite filter_app, Hnone. cbn. now rewrite String.eqb_refl.
Qed.

Lemma or_zero_id (n : Z) : or_zero n = n.
Proof.
  unfold or_zero. destruct (Z.eqb_spec n 0); congruence.
Qed.

Lemma challenge_increment (u : user_row) :
  challenge (increment_attempts u) = challenge u.
Proof. reflexivity. Qed.

Lemma challenge_set_challenge `{SecretHasher} (u : user_row) (s : string)
  (rounds : Z) (slt : string) (expires : Z) :
  challenge (set_challenge (bcrypt_hash s rounds slt) expires u)
  = Some (bcrypt_hash s rounds slt, expires).
Proof.
  unfold challenge, set_challenge. cbn. now rewrite hash_not_empty.
Qed.

(** ** The coercions *)

Lemma String_or_empty_string (s : string) :
  String_or_empty (Some (JStr s)) = Value s.
Proof. destruct s; reflexivity. Qed.

Lemma field_string (fields : list (string * json)) (key s : string) :
  own_property fields key = Some (JStr s) ->
  field (Some (JObj fields)) key = Value s.
Proof.
  intros Hown. unfold field, get_property. rewrite Hown.
  apply String_or_empty_string.
Qed.

Lemma credentials_body_fields (em pw : string) :
  credentials (credentials_body em pw) = Value (toLowerCase (trim em), pw).
Proof.
  unfold credentials, email_field, credentials_body.
  rewrite (field_string _ "email" em), (field_string _ "password" pw);
    reflexivity.
Qed.

Lemma email_body_field (em : string) :
  email_field (email_body em) = Value (toLowerCase (trim em)).
Proof.
  unfold email_field, email_body.
  rewrite (field_string _ "email" em); reflexivity.
Qed.

Lemma otp_body_fields (em otp : string) :
  email_field (otp_body em otp) = Value (toLowerCase (trim em))
  /\ otp_field (otp_body em otp) = Value (trim otp).
Proof.
  unfold email_field, otp_field, otp_body.
  rewrite (field_string _ "email" em), (field_string _ "otp" otp);
    try reflexivity.
  split; reflexivity.
Qed.

Lemma reset_body_fields (em otp pw : string) :
  email_field (reset_body em otp pw) = Value (toLowerCase (trim em))
  /\ otp_field (reset_body em otp pw) = Value (trim otp)
  /\ field (reset_body em otp pw) "newPassword" = Value pw.
Proof.
  unfold email_field, otp_field, reset_body.
  rewrite (field_string _ "email" em), (field_string _ "otp" otp),
    (field_string _ "newPassword" pw); try reflexivity.
  repeat split; reflexivity.
Qed.

(** ** What each handler does, case by case *)

(** verify, on a request that passes the input check and names an account
    with a pending challenge. *)
Lemma verify_reset_otp_pending `{SecretHasher} (e : env) (body : option json)
  (w : world) (em otp : string) (user : user_row) (rest : list user_row)
  (h : string) (expires : Z) :
  email_field body = Value em ->
  otp_field body = Value otp ->
  is_empty em = false ->
  is_empty otp = false ->
  select_by_email (users w) em = user :: rest ->
  challenge user = Some (h, expires) ->
  verify_reset_otp e body w =
    if expires <? now e then (Expired, w)
    else if reset_otp_attempts user >=? 5 then (Exhausted, w)
    else (if bcrypt_compare otp h then Valid else InvalidOtp,
          with_users (compared w)
            (update_by_email (users w) em increment_attempts)).
Proof.
  intros Hem Hotp Hem_ne Hotp_ne Hsel Hch.
  unfold verify_reset_otp, verify_reset_otp_handler. unfold_steps.
  rewrite Hem, Hotp, Hem_ne, Hotp_ne. cbn.
  rewrite Hsel, Hch, or_zero_id.
  destruct (expires <? now e); [reflexivity |].
  destruct (reset_otp_attempts user >=? 5); [reflexivity |].
  destruct (bcrypt_compare otp h); reflexivity.
Qed.

Lemma verify_all_wrong `{SecretHasher} (em h : string) (expires : Z)
  (requests : list (env * option json)) :
  is_empty em = false ->
  Forall (attempt_on em h expires false) requests ->
  forall (w : world) (user : user_row) (rest : list user_row),
    select_by_email (users w) em = user :: rest ->
    challenge user = Some (h, expires) ->
    exists user' rest',
      select_by_email (users (snd (verify_all requests w))) em = user' :: rest'
      /\ challenge user' = Some (h, expires)
      /\ Z.min 5 (reset_otp_attempts user + Z.of_nat (List.length requests))
         <= reset_otp_attempts user'
      /\ (reset_otp_attempts user + Z.of_nat (List.length requests) <= 5 ->
          fst (verify_all requests w)
          = repeat InvalidOtp (List.length requests)
          /\ reset_otp_attempts user'
             = reset_otp_attempts user + Z.of_nat (List.length requests)).
Proof.
  intros Hem_ne Hall.
  induction Hall as [| [e body] later Hreq Hlater IH]; intros w user rest Hsel Hch.
  - exists user, rest. cbn. repeat split; try assumption; lia.
  - destruct Hreq as (otp & Hem & Hotp & Hotp_ne & Hlive & Hwrong).
    cbn [fst snd] in Hem, Hotp, Hlive.
    cbn [verify_all].
    rewrite (verify_reset_otp_pending e body w em otp user rest h expires)
      by assumption.
    replace (expires <? now e) with false by (symmetry; apply Z.ltb_ge; lia).
    rewrite Hwrong.
    destruct (Z.geb_spec (reset_otp_attempts user) 5) as [Hfull | Hroom].
    + destruct (IH w user rest Hsel Hch) as (user' & rest' & Hsel' & Hch' & Hmin & _).
      destruct (verify_all later w) as [rs w''] eqn:Hrun.
      cbn [fst snd] in *.
      exists user', rest'. cbn [List.length].
      split; [assumption |]. split; [assumption |]. split.
      * clear - Hfull Hmin. lia.
      * intros Hfits. clear - Hfull Hfits. lia.
    + set (w1 := with_users (compared w)
                   (update_by_email (users w) em increment_attempts)).
      assert (Hsel1 : select_by_email (users w1) em
                      = increment_attempts user :: map increment_attempts rest).
      { subst w1. cbn [users with_users].
        rewrite select_update_same by reflexivity. now rewrite Hsel. }
      destruct (IH w1 _ _ Hsel1 Hch) as (user' & rest' & Hsel' & Hch' & Hmin & Hexact).
      destruct (verify_all later w1) as [rs w''] eqn:Hrun.
      cbn [fst snd] in *.
      exists user', rest'.
      cbn [reset_otp_attempts increment_attempts] in Hmin, Hexact.
      cbn [List.length].
      split; [assumption |]. split; [assumption |]. split.
      * clear - Hroom Hmin. lia.
      * intros Hfits.
        destruct Hexact as [Hrs Hcount]; [clear - Hfits; lia |].
        split; [cbn [repeat]; now rewrite Hrs | clear - Hcount; lia].
Qed.

(** C3. On an account with a pending, unexpired challenge, verify answers
    Exhausted without any hash comparison (the world, compare counter
    included, is untouched) once attempts has reached 5; below the ceiling it
    compares the candidate once and adds exactly one to attempts, whether
    the comparison succeeds or fails.  Hence after five wrong codes a sixth
    request, even with the correct code, is answered Exhausted; from a
    fresh challenge the five wrong codes are each answered InvalidOtp. *)
Theorem verify_counts_every_attempt `{SecretHasher} (e : env)
  (body : option json) (w : world) (em otp : string) (user : user_row)
  (rest : list user_row) (h : string) (expires : Z) :
  email_field body = Value em ->
  otp_field body = Value otp ->
  is_empty em = false ->
  is_empty otp = false ->
  select_by_email (users w) em = user :: rest ->
  challenge user = Some (h, expires) ->
  now e <= expires ->
  (5 <= reset_otp_attempts user ->
   verify_reset_otp e body w = (Exhausted, w))
  /\ (reset_otp_attempts user < 5 ->
      exists w',
        verify_reset_otp e body w
        = (if bcrypt_compare otp h then Valid else InvalidOtp, w')
        /\ compare_calls w' = S (compare_calls w)
        /\ select_by_email (users w') em
           = increment_attempts user :: map increment_attempts rest
        /\ reset_otp_attempts (increment_attempts user)
           = reset_otp_attempts user + 1
        /\ challenge (increment_attempts user) = Some (h, expires))
  /\ (0 <= reset_otp_attempts user ->
      forall (wrong : list (env * option json)) (last : env * option json),
        List.length wrong = 5%nat ->
        Forall (attempt_on em h expires false) wrong ->
        attempt_on em h expires true last ->
        fst (verify_reset_otp (fst last) (snd last)
               (snd (verify_all wrong w))) = Exhausted
        /\ (reset_otp_attempts user = 0 ->
            fst (verify_all wrong w) = repeat InvalidOtp 5)).
Proof.
  intros Hem Hotp Hem_ne Hotp_ne Hsel Hch Hlive.
  pose proof (verify_reset_otp_pending e body w em otp user rest h expires
                Hem Hotp Hem_ne Hotp_ne Hsel Hch) as Hrun.
  replace (expires <? now e) with false in Hrun
    by (symmetry; apply Z.ltb_ge; lia).
  split; [| split].
  - intros Hfull. rewrite Hrun.
    replace (reset_otp_attempts user >=? 5) with true
      by (symmetry; apply Z.geb_le; lia).
    reflexivity.
  - intros Hroom.
    replace (reset_otp_attempts user >=? 5) with false in Hrun
      by (symmetry; destruct (Z.geb_spec (reset_otp_attempts user) 5); [lia | reflexivity]).
    eexists. split; [exact Hrun |].
    cbn [compare_calls users with_users compared].
    rewrite select_update_same by reflexivity. rewrite Hsel.
    repeat split. now rewrite challenge_increment.
  - intros Hnonneg wrong [e6 body6] Hlen Hwrong Hlast.
    destruct (verify_all_wrong em h expires wrong Hem_ne Hwrong w user rest Hsel Hch)
      as (user' & rest' & Hsel' & Hch' & Hmin & Hexact).
    destruct Hlast as (otp6 & Hem6 & Hotp6 & Hotp6_ne & Hlive6 & _).
    cbn [fst snd] in *.
    rewrite Hlen in Hmin, Hexact.
    split.
    + rewrite (verify_reset_otp_pending e6 body6 _ em otp6 user' rest' h expires)
        by assumption.
      replace (expires <? now e6) with false by (symmetry; apply Z.ltb_ge; lia).
      replace (reset_otp_attempts user' >=? 5) with true
        by (symmetry; apply Z.geb_le; lia).
      reflexivity.
    + intros Hfresh.
      destruct Hexact as [Hrs _]; [clear - Hfresh; lia | exact Hrs].
Qed.

(** commit, on a request that passes the input check and names an account
    with a pending challenge. *)
Lemma reset_password_pending `{SecretHasher} (e : env) (body : option json)
  (w : world) (em otp pw : string) (user : user_row) (rest : list user_row)
  (h : string) (expires : Z) :
  email_field body = Value em ->
  otp_field body = Value otp ->
  field body "newPassword" = Value pw ->
  is_empty em = false ->
  is_empty otp = false ->
  is_empty pw = false ->
  select_by_email (users w) em = user :: rest ->
  challenge user = Some (h, expires) ->
  reset_password e body w =
    if expires <? now e then (Expired, w)
    else if bcrypt_compare otp h
         then (PasswordUpdated,
               with_users (compared w)
                 (update_by_email (users w) em
                    (set_password (bcrypt_hash pw 10 (salt e)))))
         else (InvalidOtp, compared w).
Proof.
  intros Hem Hotp Hpw Hem_ne Hotp_ne Hpw_ne Hsel Hch.
  unfold reset_password, reset_password_handler. unfold_steps.
  rewrite Hem, Hotp, Hpw, Hem_ne, Hotp_ne, Hpw_ne. cbn.
  rewrite Hsel, Hch.
  destruct (expires <? now e); [reflexivity |].
  destruct (bcrypt_compare otp h); reflexivity.
Qed.

(** verify and commit on an account without a pending challenge. *)
Lemma verify_reset_otp_no_challenge `{SecretHasher} (e : env)
  (body : option json) (w : world) (em otp : string) (user : user_row)
  (rest : list user_row) :
  email_field body = Value em ->
  otp_field body = Value otp ->
  is_empty em = false ->
  is_empty otp = false ->
  select_by_email (users w) em = user :: rest ->
  challenge user = None ->
  verify_reset_otp e body w = (NoChallengeError, w).
Proof.
  intros Hem Hotp Hem_ne Hotp_ne Hsel Hch.
  unfold verify_reset_otp, verify_reset_otp_handler. unfold_steps.
  rewrite Hem, Hotp, Hem_ne, Hotp_ne. cbn.
  now rewrite Hsel, Hch.
Qed.

(** login, on a request that passes the input check. *)
Lemma login_checked `{SecretHasher} (e : env) (body : option json)
  (w : world) (em pass : string) :
  credentials body = Value (em, pass) ->
  is_empty em = false ->
  is_empty pass = false ->
  login e body w =
    match select_by_email (users w) em with
    | [] => (UserNotFound, w)
    | user :: _ =>
        (if bcrypt_compare pass (password_hash user)
         then LoggedIn user else InvalidCredentials,
         compared w)
    end.
Proof.
  intros Hcred Hem_ne Hpass_ne.
  unfold login, login_handler. unfold_steps.
  rewrite Hcred. cbn. rewrite Hem_ne, Hpass_ne. cbn.
  destruct (select_by_email (users w) em) as [| user rest]; [reflexivity |].
  destruct (bcrypt_compare pass (password_hash user)); reflexivity.
Qed.

(** register, on a request that passes the input check. *)
Lemma register_checked `{SecretHasher} (e : env) (body : option json)
  (w : world) (em pass : string) :
  credentials body = Value (em, pass) ->
  is_empty em = false ->
  6 <= str_length pass ->
  register e body w =
    match select_by_email (users w) em with
    | [] => (AccountCreated, inserted w em (bcrypt_hash pass 10 (salt e)))
    | _ :: _ => (EmailExists, w)
    end.
Proof.
  intros Hcred Hem_ne Hlen.
  assert (Hpass_ne : is_empty pass = false).
  { destruct pass; [cbn in Hlen; lia | reflexivity]. }
  unfold register, register_handler. unfold_steps.
  rewrite Hcred. cbn. rewrite Hem_ne, Hpass_ne. cbn.
  replace (str_length pass <? 6) with false by (symmetry; apply Z.ltb_ge; lia).
  destruct (select_by_email (users w) em) as [| user rest]; reflexivity.
Qed.

(** request, on a request that passes the input check. *)
Lemma forgot_password_checked `{SecretHasher} (e : env) (body : option json)
  (w : world) (em : string) :
  email_field body = Value em ->
  is_empty em = false ->
  forgot_password e body w =
    match select_by_email (users w) em with
    | [] => (GenericSuccess, w)
    | _ :: _ =>
        if (negb (env_set (SMTP_USER e)) || negb (env_set (SMTP_PASS e)))%bool
        then (SmtpNotConfigured, w)
        else
          let otp := generateOtp6 (random e) in
          let challenged :=
            with_users w
              (update_by_email (users w) em
                 (set_challenge (bcrypt_hash otp 10 (salt e))
                    (now e + 5 * 60 * 1000))) in
          if mail_ok e
          then (OtpSent, mailed challenged em otp)
          else (ServerError "Server error (forgot-password)", challenged)
    end.
Proof.
  intros Hem Hem_ne.
  unfold forgot_password, forgot_password_handler, sendOtpEmail. unfold_steps.
  rewrite Hem. cbn. rewrite Hem_ne. cbn.
  destruct (select_by_email (users w) em) as [| user rest]; [reflexivity |].
  cbn.
  destruct (negb (env_set (SMTP_USER e)) || negb (env_set (SMTP_PASS e)))%bool;
    [reflexivity |].
  cbn. destruct (mail_ok e); reflexivity.
Qed.

(** ** The reset protocol *)

Example verify_counts_every_attempt_example :
  let wrong := repeat (at_time 2000, otp_body "a@x.com" "123456") 5 in
  let w := store_of [account 0] in
  fst (@verify_reset_otp marker_hasher (at_time 3000)
         (otp_body "A@x.com " "400000")
         (snd (@verify_all marker_hasher wrong w))) = Exhausted
  /\ fst (@verify_all marker_hasher wrong w) = repeat InvalidOtp 5.
Proof.
  cbv zeta.
  assert (Hlive : now (at_time 1000) <= 301000) by (cbv [now at_time drawing]; lia).
  assert (Hnonneg : 0 <= reset_otp_attempts (account 0))
    by (cbv [reset_otp_attempts account]; lia).
  assert (Hwrong : Forall (attempt_on (H := marker_hasher) "a@x.com" "#400000" 301000 false)
                     (repeat (at_time 2000, otp_body "a@x.com" "123456") 5)).
  { repeat constructor;
      (exists "123456"; repeat split; try reflexivity; cbv [now at_time drawing fst]; lia). }
  assert (Hright : attempt_on (H := marker_hasher) "a@x.com" "#400000" 301000 true
                     (at_time 3000, otp_body "A@x.com " "400000")).
  { exists "400000". repeat split; try reflexivity. cbv [now at_time drawing fst]. lia. }
  destruct (@verify_counts_every_attempt marker_hasher (at_time 1000)
              (otp_body "a@x.com" "400000") (store_of [account 0])
              "a@x.com" "400000" (account 0) [] "#400000" 301000
              eq_refl eq_refl eq_refl eq_refl eq_refl eq_refl Hlive)
    as (_ & _ & Hsix).
  destruct (Hsix Hnonneg
              (repeat (at_time 2000, otp_body "a@x.com" "123456") 5)
              (at_time 3000, otp_body "A@x.com " "400000")
              eq_refl Hwrong Hright) as [Hlast Hfive].
  split; [exact Hlast | apply Hfive; reflexivity].
Defined.

(** C4 (as amended).  On an account with a pending challenge, verify
    answers Expired exactly when the expiry lies strictly before now: at
    the instant now = expiresAt the challenge is still live.  On the
    Expired path nothing changes: no attempt is counted and no hash is
    compared. *)
Theorem verify_expired_iff_past_expiry `{SecretHasher} (e : env)
  (body : option json) (w : world) (em otp : string) (user : user_row)
  (rest : list user_row) (h : string) (expires : Z) :
  email_field body = Value em ->
  otp_field body = Value otp ->
  is_empty em = false ->
  is_empty otp = false ->
  select_by_email (users w) em = user :: rest ->
  challenge user = Some (h, expires) ->
  (fst (verify_reset_otp e body w) = Expired <-> expires < now e)
  /\ (expires < now e -> verify_reset_otp e body w = (Expired, w)).
Proof.
  intros Hem Hotp Hem_ne Hotp_ne Hsel Hch.
  rewrite (verify_reset_otp_pending e body w em otp user rest h expires)
    by assumption.
  destruct (Z.ltb_spec expires (now e)) as [Hpast | Hlive].
  - split; [split; [intros _; exact Hpast | reflexivity] | reflexivity].
  - split; [| intros Hpast; lia].
    split; [| intros Hpast; lia].
    destruct (reset_otp_attempts user >=? 5); [discriminate |].
    destruct (bcrypt_compare otp h); discriminate.
Qed.

Example verify_expired_iff_past_expiry_example :
  @verify_reset_otp marker_hasher (at_time 301001)
    (otp_body "a@x.com" "400000") (store_of [account 0])
  = (Expired, store_of [account 0]).
Proof.
  assert (Hpast : 301000 < now (at_time 301001)) by (cbv [now at_time drawing]; lia).
  exact (proj2 (@verify_expired_iff_past_expiry marker_hasher (at_time 301001)
                  (otp_body "a@x.com" "400000") (store_of [account 0])
                  "a@x.com" "400000" (account 0) [] "#400000" 301000
                  eq_refl eq_refl eq_refl eq_refl eq_refl eq_refl) Hpast).
Defined.

(** C4 as stated fails at the boundary: at now = expiresAt = 301000 the
    correct code is still accepted, so verify does not answer Expired
    although now >= expiresAt. *)
Example verify_at_expiry_instant_not_expired :
  challenge (account 0) = Some ("#400000", 301000)
  /\ now (at_time 301000) >= 301000
  /\ fst (@verify_reset_otp marker_hasher (at_time 301000)
            (otp_body "a@x.com" "400000") (store_of [account 0])) = Valid
  /\ Valid <> Expired.
Proof.
  repeat split; try reflexivity; discriminate.
Qed.

(** C1 (the code departs from it).  On an account whose attempts counter
    has reached 5, verify answers Exhausted, but commit never reads the
    counter: with the correct code it answers "Password updated
    successfully." and replaces the stored password hash. *)
Theorem reset_password_ignores_attempt_ceiling `{SecretHasher} (e : env)
  (body : option json) (w : world) (em otp pw : string) (user : user_row)
  (rest : list user_row) (h : string) (expires : Z) :
  email_field body = Value em ->
  otp_field body = Value otp ->
  field body "newPassword" = Value pw ->
  is_empty em = false ->
  is_empty otp = false ->
  is_empty pw = false ->
  select_by_email (users w) em = user :: rest ->
  challenge user = Some (h, expires) ->
  now e <= expires ->
  5 <= reset_otp_attempts user ->
  bcrypt_compare otp h = true ->
  verify_reset_otp e body w = (Exhausted, w)
  /\ fst (reset_password e body w) = PasswordUpdated
  /\ select_by_email (users (snd (reset_password e body w))) em
     = set_password (bcrypt_hash pw 10 (salt e)) user
       :: map (set_password (bcrypt_hash pw 10 (salt e))) rest.
Proof.
  intros Hem Hotp Hpw Hem_ne Hotp_ne Hpw_ne Hsel Hch Hlive Hfull Hright.
  rewrite (verify_reset_otp_pending e body w em otp user rest h expires)
    by assumption.
  rewrite (reset_password_pending e body w em otp pw user rest h expires)
    by assumption.
  replace (expires <? now e) with false by (symmetry; apply Z.ltb_ge; lia).
  replace (reset_otp_attempts user >=? 5) with true
    by (symmetry; apply Z.geb_le; lia).
  rewrite Hright. cbn [fst snd users with_users].
  rewrite select_update_same by reflexivity. rewrite Hsel.
  repeat split.
Qed.

Example reset_password_ignores_attempt_ceiling_example :
  let body := reset_body "a@x.com" "400000" "new-secret" in
  let w := store_of [account 5] in
  @verify_reset_otp marker_hasher (at_time 1000) body w = (Exhausted, w)
  /\ fst (@reset_password marker_hasher (at_time 1000) body w) = PasswordUpdated
  /\ select_by_email
       (users (snd (@reset_password marker_hasher (at_time 1000) body w)))
       "a@x.com"
     = [set_password "#new-secret" (account 5)].
Proof.
  cbv zeta.
  assert (Hlive : now (at_time 1000) <= 301000) by (cbv [now at_time drawing]; lia).
  assert (Hfull : 5 <= reset_otp_attempts (account 5))
    by (cbv [reset_otp_attempts account]; lia).
  exact (@reset_password_ignores_attempt_ceiling marker_hasher (at_time 1000)
           (reset_body "a@x.com" "400000" "new-secret") (store_of [account 5])
           "a@x.com" "400000" "new-secret" (account 5) [] "#400000" 301000
           eq_refl eq_refl eq_refl eq_refl eq_refl eq_refl eq_refl eq_refl
           Hlive Hfull eq_refl).
Defined.

(** C5.  On an account with a pending, unexpired challenge, commit with
    the correct code and a new password answers success and, in one update,
    stores the hash of the new password and clears the challenge (hash and
    expiry absent, attempts 0).  Afterwards login with the old password is
    answered "Wrong password" (the old password does not verify against the
    new hash), login with the new password succeeds with the account's id
    and email, and verify with the same code is answered NoChallengeError. *)
Theorem reset_password_replaces_password_and_clears_challenge `{SecretHasher}
  (e e_old e_new e_verify : env) (body body_old body_new : option json)
  (w : world) (em otp pw old_pw : string) (user : user_row)
  (rest : list user_row) (h : string) (expires : Z) :
  email_field body = Value em ->
  otp_field body = Value otp ->
  field body "newPassword" = Value pw ->
  is_empty em = false ->
  is_empty otp = false ->
  is_empty pw = false ->
  select_by_email (users w) em = user :: rest ->
  challenge user = Some (h, expires) ->
  now e <= expires ->
  bcrypt_compare otp h = true ->
  credentials body_old = Value (em, old_pw) ->
  credentials body_new = Value (em, pw) ->
  fst (login e_old body_old w) = LoggedIn user ->
  bcrypt_compare old_pw (bcrypt_hash pw 10 (salt e)) = false ->
  let w' := snd (reset_password e body w) in
  let updated := set_password (bcrypt_hash pw 10 (salt e)) user in
  fst (reset_password e body w) = PasswordUpdated
  /\ select_by_email (users w') em
     = updated :: map (set_password (bcrypt_hash pw 10 (salt e))) rest
  /\ password_hash updated = bcrypt_hash pw 10 (salt e)
  /\ reset_otp_hash updated = None
  /\ reset_otp_expires updated = None
  /\ reset_otp_attempts updated = 0
  /\ fst (login e_old body_old w') = InvalidCredentials
  /\ fst (login e_new body_new w') = LoggedIn user
  /\ fst (verify_reset_otp e_verify body w') = NoChallengeError.
Proof.
  intros Hem Hotp Hpw Hem_ne Hotp_ne Hpw_ne Hsel Hch Hlive Hright
    Hold Hnew Hbefore Hdiffer w' updated.
  assert (Hold_ne : is_empty old_pw = false).
  { destruct old_pw; [| reflexivity].
    unfold login, login_handler in Hbefore. unfold_steps_in Hbefore.
    rewrite Hold in Hbefore. cbn in Hbefore. rewrite Hem_ne in Hbefore.
    cbn in Hbefore. discriminate. }
  pose proof (reset_password_pending e body w em otp pw user rest h expires
                Hem Hotp Hpw Hem_ne Hotp_ne Hpw_ne Hsel Hch) as Hrun.
  replace (expires <? now e) with false in Hrun
    by (symmetry; apply Z.ltb_ge; lia).
  rewrite Hright in Hrun.
  assert (Hsel' : select_by_email (users w') em
                  = updated :: map (set_password (bcrypt_hash pw 10 (salt e))) rest).
  { subst w'. rewrite Hrun. cbn [snd users with_users].
    rewrite select_update_same by reflexivity. now rewrite Hsel. }
  split; [now rewrite Hrun |].
  split; [exact Hsel' |].
  do 4 (split; [reflexivity |]).
  split; [| split].
  - rewrite (login_checked e_old body_old w' em old_pw) by assumption.
    rewrite Hsel'. cbn [fst password_hash updated set_password].
    subst updated. cbn [password_hash set_password]. now rewrite Hdiffer.
  - rewrite (login_checked e_new body_new w' em pw) by assumption.
    rewrite Hsel'. subst updated. cbn [fst password_hash set_password].
    now rewrite compare_hash.
  - rewrite (verify_reset_otp_no_challenge e_verify body w' em otp updated
               (map (set_password (bcrypt_hash pw 10 (salt e))) rest));
      try assumption; reflexivity.
Qed.

Example reset_password_replaces_password_example :
  let w := store_of [account 2] in
  let w' := snd (@reset_password marker_hasher (at_time 1000)
                   (reset_body "a@x.com" "400000" "new-secret") w) in
  fst (@login marker_hasher (at_time 2000)
         (credentials_body "a@x.com" "old-secret") w') = InvalidCredentials
  /\ fst (@login marker_hasher (at_time 2000)
            (credentials_body "a@x.com" "new-secret") w') = LoggedIn (account 2)
  /\ fst (@verify_reset_otp marker_hasher (at_time 2000)
            (reset_body "a@x.com" "400000" "new-secret") w') = NoChallengeError.
Proof.
  cbv zeta.
  assert (Hlive : now (at_time 1000) <= 301000) by (cbv [now at_time drawing]; lia).
  destruct (@reset_password_replaces_password_and_clears_challenge
              marker_hasher (at_time 1000) (at_time 2000) (at_time 2000)
              (at_time 2000) (reset_body "a@x.com" "400000" "new-secret")
              (credentials_body "a@x.com" "old-secret")
              (credentials_body "a@x.com" "new-secret")
              (store_of [account 2]) "a@x.com" "400000" "new-secret"
              "old-secret" (account 2) [] "#400000" 301000
              eq_refl eq_refl eq_refl eq_refl eq_refl eq_refl eq_refl eq_refl
              Hlive eq_refl eq_refl eq_refl eq_refl eq_refl)
    as (_ & _ & _ & _ & _ & _ & Hold & Hnew & Hverify).
  exact (conj Hold (conj Hnew Hverify)).
Defined.

(** ** Accounts *)

(** C7.  For every email that normalizes (trim, lower case) to a non-empty
    string with no account yet, and every password of at least 6
    characters, register answers "Account created" and stores one new row
    under the normalized email with the identifier the store assigns; a
    login with the same email and password then succeeds and returns the
    identifier of exactly that row. *)
Theorem register_then_login `{SecretHasher} (e e' : env)
  (raw_email password : string) (w : world) :
  is_empty (toLowerCase (trim raw_email)) = false ->
  6 <= str_length password ->
  select_by_email (users w) (toLowerCase (trim raw_email)) = [] ->
  let body := credentials_body raw_email password in
  let created :=
    new_user (next_id w) (toLowerCase (trim raw_email))
      (bcrypt_hash password 10 (salt e)) in
  fst (register e body w) = AccountCreated
  /\ users (snd (register e body w)) = (users w ++ [created])%list
  /\ fst (login e' body (snd (register e body w))) = LoggedIn created
  /\ payload (LoggedIn created)
     = JObj [("success", JBool true);
             ("user", JObj [("id", JNum (jsnum_of_Z (next_id w)));
                            ("email", JStr (toLowerCase (trim raw_email)))])].
Proof.
  intros Hem_ne Hlen Hfresh body created.
  assert (Hpass_ne : is_empty password = false).
  { destruct password; [cbn in Hlen; lia | reflexivity]. }
  pose proof (credentials_body_fields raw_email password) as Hcred.
  fold body in Hcred.
  rewrite (register_checked e body w _ password Hcred Hem_ne Hlen).
  rewrite Hfresh. cbn [fst snd].
  split; [reflexivity |]. split; [reflexivity |]. split; [| reflexivity].
  rewrite (login_checked e' body _ _ password Hcred Hem_ne Hpass_ne).
  cbn [users inserted].
  rewrite (select_insert_fresh _ _ _ _ Hfresh).
  cbn [fst password_hash new_user]. now rewrite compare_hash.
Qed.

Example register_then_login_example :
  let body := credentials_body "  New.User@X.com " "secret1" in
  let w := store_of [account 0] in
  fst (@login marker_hasher (at_time 2000) body
         (snd (@register marker_hasher (at_time 1000) body w)))
  = LoggedIn (new_user 8 "new.user@x.com" "#secret1").
Proof.
  cbv zeta.
  assert (Hlen : 6 <= str_length "secret1") by (cbv; congruence).
  destruct (@register_then_login marker_hasher (at_time 1000) (at_time 2000)
              "  New.User@X.com " "secret1" (store_of [account 0])
              eq_refl Hlen eq_refl) as (_ & _ & Hlogin & _).
  exact Hlogin.
Defined.

(** ** Requesting a code *)

(** C8.  Two requests in a row for the same account (SMTP configured),
    drawing the codes C1 and then C2: after the second one the stored
    challenge is the hash of C2 with attempts 0 and a fresh expiry.
    Provided the superseded C1 does not verify against the hash of C2,
    verify with C1 is answered InvalidOtp, and verify with C2 is answered
    Valid, before or after that failed attempt. *)
Theorem second_request_supersedes_first `{SecretHasher} (e1 e2 v1 v2 : env)
  (request body1 body2 : option json) (w : world) (em : string)
  (user : user_row) (rest : list user_row) :
  let c1 := generateOtp6 (random e1) in
  let c2 := generateOtp6 (random e2) in
  let h2 := bcrypt_hash c2 10 (salt e2) in
  let w2 := snd (forgot_password e2 request (snd (forgot_password e1 request w))) in
  email_field request = Value em ->
  is_empty em = false ->
  select_by_email (users w) em = user :: rest ->
  env_set (SMTP_USER e1) = true -> env_set (SMTP_PASS e1) = true ->
  env_set (SMTP_USER e2) = true -> env_set (SMTP_PASS e2) = true ->
  (0 <= random e1)%Q -> (random e1 < 1)%Q ->
  (0 <= random e2)%Q -> (random e2 < 1)%Q ->
  email_field body1 = Value em -> otp_field body1 = Value (trim c1) ->
  email_field body2 = Value em -> otp_field body2 = Value (trim c2) ->
  now v1 <= now e2 + 300000 ->
  now v2 <= now e2 + 300000 ->
  bcrypt_compare c1 h2 = false ->
  (exists user2 rest2,
     select_by_email (users w2) em = user2 :: rest2
     /\ reset_otp_hash user2 = Some h2
     /\ reset_otp_expires user2 = Some (now e2 + 300000)
     /\ reset_otp_attempts user2 = 0)
  /\ fst (verify_reset_otp v1 body1 w2) = InvalidOtp
  /\ fst (verify_reset_otp v2 body2 w2) = Valid
  /\ fst (verify_reset_otp v2 body2 (snd (verify_reset_otp v1 body1 w2))) = Valid.
Proof.
  intros c1 c2 h2 w2 Hem Hem_ne Hsel Hu1 Hp1 Hu2 Hp2 Hr1 Hr1' Hr2 Hr2'
    Hem1 Hotp1 Hem2 Hotp2 Hlive1 Hlive2 Hdiffer.
  pose proof (generateOtp6_trim _ Hr1 Hr1') as Htrim1.
  pose proof (generateOtp6_trim _ Hr2 Hr2') as Htrim2.
  pose proof (generateOtp6_not_empty _ Hr1 Hr1') as Hc1_ne.
  pose proof (generateOtp6_not_empty _ Hr2 Hr2') as Hc2_ne.
  fold c1 in Htrim1, Hc1_ne. fold c2 in Htrim2, Hc2_ne.
  rewrite Htrim1 in Hotp1. rewrite Htrim2 in Hotp2.
  set (set1 := set_challenge (bcrypt_hash c1 10 (salt e1)) (now e1 + 5 * 60 * 1000)).
  set (set2 := set_challenge h2 (now e2 + 5 * 60 * 1000)).
  (* after the first request *)
  assert (Hsel1 : select_by_email
                    (users (snd (forgot_password e1 request w))) em
                  = set1 user :: map set1 rest).
  { rewrite (forgot_password_checked e1 request w em Hem Hem_ne).
    rewrite Hsel, Hu1, Hp1. cbn [negb orb]. cbv zeta. fold c1. fold set1.
    destruct (mail_ok e1); cbn [snd users with_users mailed];
      rewrite select_update_same by reflexivity; now rewrite Hsel. }
  (* after the second request *)
  assert (Hsel2 : select_by_email (users w2) em
                  = set2 (set1 user) :: map set2 (map set1 rest)).
  { subst w2.
    rewrite (forgot_password_checked e2 request _ em Hem Hem_ne).
    rewrite Hsel1, Hu2, Hp2. cbn [negb orb]. cbv zeta. fold c2. fold h2. fold set2.
    destruct (mail_ok e2); cbn [snd users with_users mailed];
      rewrite select_update_same by reflexivity; now rewrite Hsel1. }
  assert (Hch2 : challenge (set2 (set1 user)) = Some (h2, now e2 + 300000)).
  { subst set2 h2. rewrite challenge_set_challenge. reflexivity. }
  split.
  { exists (set2 (set1 user)), (map set2 (map set1 rest)).
    split; [exact Hsel2 |]. repeat split. }
  pose proof (verify_reset_otp_pending v1 body1 w2 em c1 _ _ h2 _
                Hem1 Hotp1 Hem_ne Hc1_ne Hsel2 Hch2) as Hrun1.
  replace (now e2 + 300000 <? now v1) with false in Hrun1
    by (symmetry; apply Z.ltb_ge; lia).
  cbn [reset_otp_attempts set2 set_challenge Z.geb Z.compare] in Hrun1.
  rewrite Hdiffer in Hrun1.
  pose proof (verify_reset_otp_pending v2 body2 w2 em c2 _ _ h2 _
                Hem2 Hotp2 Hem_ne Hc2_ne Hsel2 Hch2) as Hrun2.
  replace (now e2 + 300000 <? now v2) with false in Hrun2
    by (symmetry; apply Z.ltb_ge; lia).
  cbn [reset_otp_attempts set2 set_challenge Z.geb Z.compare] in Hrun2.
  unfold h2 in Hrun2 at 1. rewrite compare_hash in Hrun2.
  split; [now rewrite Hrun1 |]. split; [now rewrite Hrun2 |].
  rewrite Hrun1. cbn [snd].
  assert (Hsel3 : select_by_email
                    (users (with_users (compared w2)
                              (update_by_email (users w2) em increment_attempts)))
                    em
                  = increment_attempts (set2 (set1 user))
                    :: map increment_attempts (map set2 (map set1 rest))).
  { cbn [users with_users]. rewrite select_update_same by reflexivity.
    now rewrite Hsel2. }
  rewrite (verify_reset_otp_pending v2 body2 _ em c2 _ _ h2 (now e2 + 300000)
             Hem2 Hotp2 Hem_ne Hc2_ne Hsel3)
    by (rewrite challenge_increment; exact Hch2).
  replace (now e2 + 300000 <? now v2) with false
    by (symmetry; apply Z.ltb_ge; lia).
  cbn [reset_otp_attempts increment_attempts set2 set_challenge Z.add Z.geb
         Z.compare Pos.compare Pos.compare_cont fst].
  unfold h2 at 1. now rewrite compare_hash.
Qed.

Example second_request_supersedes_first_example :
  let w2 := snd (@forgot_password marker_hasher (drawing (1 # 2) 2000)
                   (email_body "a@x.com")
                   (snd (@forgot_password marker_hasher (drawing (1 # 3) 1000)
                           (email_body "a@x.com") (store_of [account 3])))) in
  generateOtp6 (1 # 3) = "400000"
  /\ generateOtp6 (1 # 2) = "550000"
  /\ fst (@verify_reset_otp marker_hasher (at_time 3000)
            (otp_body "a@x.com" "400000") w2) = InvalidOtp
  /\ fst (@verify_reset_otp marker_hasher (at_time 3000)
            (otp_body "a@x.com" "550000") w2) = Valid.
Proof.
  cbv zeta.
  assert (Hlive : now (at_time 3000) <= now (drawing (1 # 2) 2000) + 300000)
    by (cbv [now at_time drawing]; lia).
  assert (Hr1 : (0 <= random (drawing (1 # 3) 1000))%Q) by (cbv; congruence).
  assert (Hr1' : (random (drawing (1 # 3) 1000) < 1)%Q) by reflexivity.
  assert (Hr2 : (0 <= random (drawing (1 # 2) 2000))%Q) by (cbv; congruence).
  assert (Hr2' : (random (drawing (1 # 2) 2000) < 1)%Q) by reflexivity.
  destruct (@second_request_supersedes_first marker_hasher
              (drawing (1 # 3) 1000) (drawing (1 # 2) 2000)
              (at_time 3000) (at_time 3000) (email_body "a@x.com")
              (otp_body "a@x.com" "400000") (otp_body "a@x.com" "550000")
              (store_of [account 3]) "a@x.com" (account 3) []
              eq_refl eq_refl eq_refl eq_refl eq_refl eq_refl eq_refl
              Hr1 Hr1' Hr2 Hr2' eq_refl eq_refl eq_refl eq_refl
              Hlive Hlive eq_refl)
    as (_ & Hfirst & Hsecond & _).
  split; [reflexivity |]. split; [reflexivity |].
  split; [exact Hfirst | exact Hsecond].
Defined.

(** C2 (the code departs from it).  With the same surroundings, a request
    for an email without an account is answered with the generic success
    payload, and a request for an email with an account is answered with
    something else ("OTP sent to your email.", or a 500 when SMTP is not
    configured or the delivery fails): the two responses always differ. *)
Theorem forgot_password_reveals_account `{SecretHasher} (e : env)
  (body_known body_unknown : option json) (w : world)
  (known unknown : string) (user : user_row) (rest : list user_row) :
  email_field body_known = Value known ->
  email_field body_unknown = Value unknown ->
  is_empty known = false ->
  is_empty unknown = false ->
  select_by_email (users w) known = user :: rest ->
  select_by_email (users w) unknown = [] ->
  fst (forgot_password e body_unknown w) = GenericSuccess
  /\ fst (forgot_password e body_known w) <> GenericSuccess
  /\ (env_set (SMTP_USER e) = true -> env_set (SMTP_PASS e) = true ->
      mail_ok e = true ->
      fst (forgot_password e body_known w) = OtpSent).
Proof.
  intros Hknown Hunknown Hknown_ne Hunknown_ne Hsel Hnone.
  rewrite (forgot_password_checked e body_unknown w unknown) by assumption.
  rewrite (forgot_password_checked e body_known w known) by assumption.
  rewrite Hsel, Hnone. cbv zeta.
  split; [reflexivity |]. split.
  - destruct (negb (env_set (SMTP_USER e)) || negb (env_set (SMTP_PASS e)))%bool;
      [discriminate |].
    destruct (mail_ok e); discriminate.
  - intros -> -> ->. reflexivity.
Qed.

Example forgot_password_reveals_account_example :
  fst (@forgot_password marker_hasher (at_time 1000)
         (email_body "nobody@x.com") (store_of [account 0]))
  = success "If email exists, OTP sent."
  /\ fst (@forgot_password marker_hasher (at_time 1000)
            (email_body "a@x.com") (store_of [account 0]))
     = success "OTP sent to your email.".
Proof.
  destruct (@forgot_password_reveals_account marker_hasher (at_time 1000)
              (email_body "a@x.com") (email_body "nobody@x.com")
              (store_of [account 0]) "a@x.com" "nobody@x.com" (account 0) []
              eq_refl eq_refl eq_refl eq_refl eq_refl eq_refl)
    as (Hunknown & _ & Hknown).
  split; [exact Hunknown | exact (Hknown eq_refl eq_refl eq_refl)].
Defined.

(** ** Login *)

(** X1.  Whenever the login of [server.js] reports success, on any body
    and any table, the whole response is status 200 with the body
    [{ success: true, user: { id, email } }] made of the id and the email
    of the first row selected for the normalized submitted email, and of
    nothing else of that row; [bcrypt.compare] was called once and accepted
    the submitted password against the [password_hash] of that same row;
    and the table is as it was. *)
Theorem login_returns_public_identity `{SecretHasher} (e : env)
  (body : option json) (w : world) :
  succeeded (fst (login e body w)) = true ->
  exists em pass user rest,
    credentials body = Value (em, pass)
    /\ select_by_email (users w) em = user :: rest
    /\ bcrypt_compare pass (password_hash user) = true
    /\ login e body w
       = ({| status := 200;
             payload :=
               JObj [("success", JBool true);
                     ("user", JObj [("id", JNum (jsnum_of_Z (id user)));
                                    ("email", JStr (email user))])] |},
          compared w).
Proof.
  unfold login, login_handler. unfold_steps.
  destruct (credentials body) as [[em pass] | err]; [| discriminate].
  cbn.
  destruct (is_empty em); [discriminate |].
  destruct (is_empty pass); [discriminate |].
  cbn.
  destruct (select_by_email (users w) em) as [| user rest] eqn:Hsel;
    [discriminate |].
  cbn.
  destruct (bcrypt_compare pass (password_hash user)) eqn:Hcmp;
    [| discriminate].
  intros _. exists em, pass, user, rest.
  split; [reflexivity | split; [exact Hsel | split; [exact Hcmp | reflexivity]]].
Qed.

(** C6 (the router's login departs from it).  [router.post("/login")]
    selects on the submitted password itself, so a match means the stored
    [password] column equals the submitted plaintext, and it answers with
    the whole selected row, stored password included. *)
Theorem router_login_returns_stored_password (tbl : list router_row)
  (em pw : string) (first : router_row) (rest : list router_row) :
  router_select tbl em pw = first :: rest ->
  router_login tbl em pw
  = res_json (JObj [("message", JStr "Login successful"); ("user", JObj first)])
  /\ own_property first "password" = Some (JStr pw)
  /\ own_property first "email" = Some (JStr em).
Proof.
  intros Hsel. unfold router_login. rewrite Hsel. split; [reflexivity |].
  assert (Hin : In first (router_select tbl em pw)) by (rewrite Hsel; now left).
  unfold router_select in Hin. apply filter_In in Hin.
  destruct Hin as [_ Hmatch]. apply andb_true_iff in Hmatch.
  destruct Hmatch as [Hemail Hpassword].
  unfold column_is in Hemail, Hpassword.
  destruct (own_property first "password") as [[| | | s | |] |];
    try discriminate.
  destruct (own_property first "email") as [[| | | s' | |] |];
    try discriminate.
  apply String.eqb_eq in Hemail, Hpassword. now subst.
Qed.

Example router_login_returns_stored_password_example :
  router_login [router_account] "a@x.com" "old-secret"
  = res_json (JObj [("message", JStr "Login successful");
                    ("user", JObj [("id", JNum (jsnum_of_Z 7));
                                   ("email", JStr "a@x.com");
                                   ("password", JStr "old-secret")])]).
Proof.
  exact (proj1 (router_login_returns_stored_password [router_account]
                  "a@x.com" "old-secret" router_account [] eq_refl)).
Defined.

(** ** The code generator *)

Lemma six_digits_first_not_zero (n : Z) (rest : string) :
  100000 <= n <= 999999 -> six_digits n <> String "0"%char rest.
Proof.
  intros Hn Heq. unfold six_digits in Heq.
  injection Heq as Hfirst _.
  assert (B5 : 1 <= n / 100000 <= 9) by (Z.div_mod_to_equations; lia).
  apply digit_char_zero in Hfirst; lia.
Qed.

Lemma digit_char_inj (a b : Z) :
  0 <= a <= 9 -> 0 <= b <= 9 -> digit_char a = digit_char b -> a = b.
Proof.
  intros Ha Hb Heq. unfold digit_char in Heq.
  apply (f_equal nat_of_ascii) in Heq.
  rewrite !nat_ascii_embedding in Heq by lia. lia.
Qed.

Lemma six_digits_inj (n m : Z) :
  100000 <= n <= 999999 -> 100000 <= m <= 999999 ->
  six_digits n = six_digits m -> n = m.
Proof.
  intros Hn Hm Heq. unfold six_digits in Heq.
  injection Heq as H5 H4 H3 H2 H1 H0.
  apply digit_char_inj in H5, H4, H3, H2, H1, H0;
    Z.div_mod_to_equations; lia.
Qed.

Lemma Qfloor_eq_iff (x : Q) (k : Z) :
  Qfloor x = k <-> (inject_Z k <= x /\ x < inject_Z (k + 1))%Q.
Proof.
  split.
  - intros <-. split; [apply Qfloor_le | apply Qlt_floor].
  - intros [Hlo Hhi].
    apply Qfloor_resp_le in Hlo. rewrite Qfloor_Z in Hlo.
    assert (Hlt : (inject_Z (Qfloor x) < inject_Z (k + 1))%Q)
      by (eapply Qle_lt_trans; [apply Qfloor_le | exact Hhi]).
    rewrite <- Zlt_Qlt in Hlt. lia.
Qed.

(** The number under [Math.floor] in [generateOtp6]. *)
Lemma generateOtp6_floor (r : Q) :
  (0 <= r)%Q -> (r < 1)%Q ->
  exists s : Q,
    generateOtp6 r = string_of_Z (Qfloor s)
    /\ 100000 <= Qfloor s <= 999999
    /\ (s - (1 # 8589934592) <= 100000 + r * 900000)%Q
    /\ (100000 + r * 900000 < s + (1 # 4294967296))%Q.
Proof.
  intros Hlo Hhi.
  exists (number_add 100000 (number_mul (Math_random r) 900000)).
  split; [reflexivity |].
  split; [exact (otp_number_range r Hlo Hhi) |].
  exact (proj2 (proj2 (otp_value_range r Hlo Hhi))).
Qed.

(** The draws that produce a given code are those with 100000 + 900000 r
    in [code, code + 1), give or take 2^-32 at either end: the two
    roundings of the Number arithmetic and the spacing of the Numbers
    [Math.random()] returns move the ends of the interval by less than
    that. *)
Lemma generateOtp6_draws (r : Q) (code : Z) :
  (0 <= r)%Q -> (r < 1)%Q -> 100000 <= code <= 999999 ->
  ((inject_Z code + (1 # 4294967296) <= 100000 + r * 900000
    /\ 100000 + r * 900000 < inject_Z code + 1 - (1 # 4294967296))%Q ->
   generateOtp6 r = string_of_Z code)
  /\ (generateOtp6 r = string_of_Z code ->
      (inject_Z code - (1 # 4294967296) < 100000 + r * 900000
       /\ 100000 + r * 900000 < inject_Z code + 1 + (1 # 4294967296))%Q).
Proof.
  intros Hlo Hhi Hcode.
  destruct (generateOtp6_floor r Hlo Hhi) as (s & -> & Hrange & Hbelow & Habove).
  split.
  - intros [H1 H2]. f_equal. apply Qfloor_eq_iff.
    rewrite inject_Z_plus. change (inject_Z 1) with 1%Q. split; lra.
  - intros Heq.
    rewrite (string_of_Z_six_digits _ Hrange) in Heq.
    rewrite (string_of_Z_six_digits code Hcode) in Heq.
    apply six_digits_inj in Heq; try assumption.
    apply Qfloor_eq_iff in Heq. destruct Heq as [H1 H2].
    rewrite inject_Z_plus in H2. change (inject_Z 1) with 1%Q in H2.
    split; lra.
Qed.

(** Every code of the range is produced: by the draw in the middle of its
    interval. *)
Lemma generateOtp6_every_code (code : Z) :
  100000 <= code <= 999999 ->
  exists r : Q, (0 <= r)%Q /\ (r < 1)%Q /\ generateOtp6 r = string_of_Z code.
Proof.
  intros Hcode.
  set (r := ((inject_Z code - 100000 + (1 # 2)) * (1 # 900000))%Q).
  assert (H1 : (inject_Z 100000 <= inject_Z code)%Q) by (rewrite <- Zle_Qle; lia).
  assert (H2 : (inject_Z code <= inject_Z 999999)%Q) by (rewrite <- Zle_Qle; lia).
  change (inject_Z 100000) with 100000%Q in H1.
  change (inject_Z 999999) with 999999%Q in H2.
  assert (Hlo : (0 <= r)%Q) by (unfold r; lra).
  assert (Hhi : (r < 1)%Q) by (unfold r; lra).
  exists r. split; [exact Hlo | split; [exact Hhi |]].
  apply (generateOtp6_draws r code Hlo Hhi Hcode).
  unfold r. split; lra.
Qed.

(** C9 (as amended).  Every code the generator produces is a 6-digit
    numeric string: the decimal rendering of an integer between 100000 and
    999999.  Its first digit is never 0, so no code with a leading zero
    (000000 to 099999) is ever produced.  Over that range the draw is
    uniform up to the rounding of Number arithmetic: every code of the
    range is produced, a draw [r] of [Math.random()] with
    code + 2^-32 <= 100000 + 900000 r < code + 1 - 2^-32 produces that
    code, and a draw that produces it has
    code - 2^-32 < 100000 + 900000 r < code + 1 + 2^-32.  So the draws of
    each code fill an interval of width 1/900000, the same for every code,
    up to 2^-32/900000 at either end. *)
Theorem generateOtp6_six_digit_code (r : Q) :
  (0 <= r)%Q -> (r < 1)%Q ->
  String.length (generateOtp6 r) = 6%nat
  /\ all_digits (generateOtp6 r) = true
  /\ (exists n, 100000 <= n <= 999999 /\ generateOtp6 r = string_of_Z n)
  /\ (forall rest, generateOtp6 r <> String "0"%char rest)
  /\ (forall code, 100000 <= code <= 999999 ->
      (exists r' : Q, (0 <= r')%Q /\ (r' < 1)%Q
                      /\ generateOtp6 r' = string_of_Z code)
      /\ ((inject_Z code + (1 # 4294967296) <= 100000 + r * 900000
           /\ 100000 + r * 900000 < inject_Z code + 1 - (1 # 4294967296))%Q ->
          generateOtp6 r = string_of_Z code)
      /\ (generateOtp6 r = string_of_Z code ->
          (inject_Z code - (1 # 4294967296) < 100000 + r * 900000
           /\ 100000 + r * 900000 < inject_Z code + 1 + (1 # 4294967296))%Q)).
Proof.
  intros Hlo Hhi.
  pose proof (otp_number_range r Hlo Hhi) as Hrange.
  split; [| split; [| split; [| split]]].
  - rewrite generateOtp6_six_digits by assumption. reflexivity.
  - apply generateOtp6_digits; assumption.
  - eexists. split; [exact Hrange | reflexivity].
  - intros rest. rewrite generateOtp6_six_digits by assumption.
    apply six_digits_first_not_zero, Hrange.
  - intros code Hcode. split.
    + apply generateOtp6_every_code, Hcode.
    + apply generateOtp6_draws; assumption.
Qed.

(** The draws 0 and 899999/900000 give the two ends of the range.  At the
    Number nearest to 1/3, which is below 1/3, the exact value of
    100000 + 900000 r is below 400000, and the rounded sum is 400000. *)
Example generateOtp6_six_digit_code_example :
  String.length (generateOtp6 0) = 6%nat
  /\ generateOtp6 0 = "100000"
  /\ generateOtp6 (899999 # 900000) = "999999"
  /\ generateOtp6 (6004799503160661 # 18014398509481984) = "400000"
  /\ Qfloor (100000 + (6004799503160661 # 18014398509481984) * 900000) = 399999.
Proof.
  assert (Hlo : (0 <= 0)%Q) by (cbv; congruence).
  assert (Hhi : (0 < 1)%Q) by reflexivity.
  split; [exact (proj1 (generateOtp6_six_digit_code 0 Hlo Hhi)) |].
  repeat split; vm_compute; reflexivity.
Defined.

(** C9 as stated fails: the code 000000 of the claimed range is produced
    by no draw of [Math.random()]. *)
Example generateOtp6_never_000000 :
  ~ exists r : Q, (0 <= r)%Q /\ (r < 1)%Q /\ generateOtp6 r = "000000".
Proof.
  intros (r & Hlo & Hhi & Hcode).
  rewrite generateOtp6_six_digits in Hcode by assumption.
  exact (six_digits_first_not_zero _ _ (otp_number_range r Hlo Hhi) Hcode).
Qed.

(** ** Input coercion *)











(** ** Further properties of the handlers *)

Example login_returns_public_identity_example :
  exists em pass user rest,
    credentials (credentials_body " A@X.com" "old-secret") = Value (em, pass)
    /\ select_by_email (users (store_of [account 0])) em = user :: rest
    /\ marker_compare pass (password_hash user) = true
    /\ @login marker_hasher (at_time 1000)
         (credentials_body " A@X.com" "old-secret") (store_of [account 0])
       = ({| status := 200;
             payload :=
               JObj [("success", JBool true);
                     ("user", JObj [("id", JNum (jsnum_of_Z (id user)));
                                    ("email", JStr (email user))])] |},
          compared (store_of [account 0])).
Proof.
  exact (@login_returns_public_identity marker_hasher (at_time 1000)
           (credentials_body " A@X.com" "old-secret")
           (store_of [account 0]) eq_refl).
Defined.

(** X2.  Registering twice under emails with the same normalization (case
    and surrounding white space may differ) creates one account: the second
    call is answered "Email already exists" and changes nothing. *)
Theorem register_twice_one_account `{SecretHasher} (e e' : env)
  (raw_email raw_email' password password' : string) (w : world) :
  toLowerCase (trim raw_email') = toLowerCase (trim raw_email) ->
  is_empty (toLowerCase (trim raw_email)) = false ->
  6 <= str_length password ->
  6 <= str_length password' ->
  select_by_email (users w) (toLowerCase (trim raw_email)) = [] ->
  let w1 := snd (register e (credentials_body raw_email password) w) in
  register e' (credentials_body raw_email' password') w1 = (EmailExists, w1)
  /\ select_by_email (users w1) (toLowerCase (trim raw_email))
     = [new_user (next_id w) (toLowerCase (trim raw_email))
          (bcrypt_hash password 10 (salt e))].
Proof.
  intros Hsame Hem_ne Hlen Hlen' Hfresh w1.
  assert (Hsel1 : select_by_email (users w1) (toLowerCase (trim raw_email))
                  = [new_user (next_id w) (toLowerCase (trim raw_email))
                       (bcrypt_hash password 10 (salt e))]).
  { subst w1.
    rewrite (register_checked e _ w _ password
               (credentials_body_fields raw_email password) Hem_ne Hlen).
    rewrite Hfresh. cbn [snd users inserted].
    apply select_insert_fresh, Hfresh. }
  split; [| exact Hsel1].
  pose proof (credentials_body_fields raw_email' password') as Hcred.
  rewrite Hsame in Hcred.
  rewrite (register_checked e' _ w1 _ password' Hcred Hem_ne Hlen').
  now rewrite Hsel1.
Qed.

Example register_twice_one_account_example :
  let w1 := snd (@register marker_hasher (at_time 1000)
                   (credentials_body "b@x.com" "secret1") (store_of [account 0])) in
  @register marker_hasher (at_time 2000)
    (credentials_body "  B@X.COM " "another-secret") w1
  = (EmailExists, w1).
Proof.
  cbv zeta.
  assert (Hlen : 6 <= str_length "secret1") by (cbv; congruence).
  assert (Hlen' : 6 <= str_length "another-secret") by (cbv; congruence).
  exact (proj1 (@register_twice_one_account marker_hasher (at_time 1000)
                  (at_time 2000) "b@x.com" "  B@X.COM " "secret1"
                  "another-secret" (store_of [account 0])
                  eq_refl eq_refl Hlen Hlen' eq_refl)).
Defined.

Lemma update_keeps_non_negative (tbl : list user_row) (em : string)
  (set : user_row -> user_row) :
  (forall u, 0 <= reset_otp_attempts u -> 0 <= reset_otp_attempts (set u)) ->
  Forall (fun u => 0 <= reset_otp_attempts u) tbl ->
  Forall (fun u => 0 <= reset_otp_attempts u) (update_by_email tbl em set).
Proof.
  intros Hset Htbl. unfold update_by_email.
  induction Htbl as [| u tbl Hu _ IH]; cbn [map]; constructor; [| exact IH].
  destruct (String.eqb (email u) em); [apply Hset |]; exact Hu.
Qed.

Lemma route_handler_keeps_non_negative `{SecretHasher} (r : route) (e : env)
  (body : option json) (w : world) :
  attempts_non_negative w ->
  attempts_non_negative (snd (route_handler r e body w)).
Proof.
  unfold attempts_non_negative. intros Hw.
  assert (Hincr : Forall (fun u => 0 <= reset_otp_attempts u)
                    (update_by_email (users w)
                       match email_field body with Value em => em | Thrown _ => "" end
                       increment_attempts)).
  { apply update_keeps_non_negative; [| exact Hw].
    intros u Hu. cbn [reset_otp_attempts increment_attempts]. lia. }
  assert (Hany : forall em set,
             (forall u, reset_otp_attempts (set u) = 0) ->
             Forall (fun u => 0 <= reset_otp_attempts u)
               (update_by_email (users w) em set)).
  { intros em set Hzero. apply update_keeps_non_negative; [| exact Hw].
    intros u _. rewrite Hzero. lia. }
  destruct r; cbn [route_handler];
    [unfold register, register_handler
    | unfold login, login_handler
    | unfold forgot_password, forgot_password_handler, sendOtpEmail
    | unfold verify_reset_otp, verify_reset_otp_handler
    | unfold reset_password, reset_password_handler];
    unfold_steps; unfold credentials in *;
    split_cases;
    cbn [snd users with_users compared mailed inserted fst] in *;
    try exact Hw; try exact Hincr; try (apply Hany; reflexivity).
  apply Forall_app. split; [exact Hw |].
  constructor; [cbn; lia | constructor].
Qed.

(** X3.  In every world the server can reach from a store whose attempts
    counters are not negative, no attempts counter is negative: the
    handlers only set the counter to 0 or add 1 to it. *)
Theorem reachable_attempts_non_negative `{SecretHasher} (w0 w : world) :
  attempts_non_negative w0 -> reachable w0 w -> attempts_non_negative w.
Proof.
  intros Hstart Hreach.
  induction Hreach as [| w r e body _ IH]; [exact Hstart |].
  apply route_handler_keeps_non_negative, IH.
Qed.

Example reachable_attempts_non_negative_example :
  attempts_non_negative
    (snd (@route_handler marker_hasher ApiVerifyResetOtp (at_time 1000)
            (otp_body "a@x.com" "123456") (store_of [account 0]))).
Proof.
  assert (Hstart : attempts_non_negative (store_of [account 0])).
  { repeat constructor. cbv [reset_otp_attempts account]. lia. }
  exact (@reachable_attempts_non_negative marker_hasher (store_of [account 0]) _
           Hstart
           (reachable_request (store_of [account 0]) (store_of [account 0])
              ApiVerifyResetOtp (at_time 1000) (otp_body "a@x.com" "123456")
              (reachable_start (store_of [account 0])))).
Defined.

(* ================================================================== *)
(** * Further properties: effects, invariants and compositions *)
(* ================================================================== *)

(** ** Email normalization *)

Lemma lower_char_idempotent (c : ascii) : lower_char (lower_char c) = lower_char c.
Proof. destruct c as [[] [] [] [] [] [] [] []]; reflexivity. Qed.

Lemma lower_char_space (c : ascii) : is_space (lower_char c) = is_space c.
Proof. destruct c as [[] [] [] [] [] [] [] []]; reflexivity. Qed.

Lemma toLowerCase_idempotent (s : string) :
  toLowerCase (toLowerCase s) = toLowerCase s.
Proof.
  induction s as [| c rest IH]; [reflexivity |].
  cbn [toLowerCase]. now rewrite lower_char_idempotent, IH.
Qed.

Lemma trimStart_toLowerCase (s : string) :
  trimStart (toLowerCase s) = toLowerCase (trimStart s).
Proof.
  induction s as [| c rest IH]; [reflexivity |].
  cbn [toLowerCase trimStart]. rewrite lower_char_space.
  destruct (is_space c); [exact IH | reflexivity].
Qed.

Lemma trimEnd_toLowerCase (s : string) :
  trimEnd (toLowerCase s) = toLowerCase (trimEnd s).
Proof.
  induction s as [| c rest IH]; [reflexivity |].
  cbn [toLowerCase trimEnd]. rewrite IH, lower_char_space.
  destruct (trimEnd rest) as [| c' kept]; cbn [toLowerCase].
  - destruct (is_space c); reflexivity.
  - reflexivity.
Qed.

Lemma trimEnd_idempotent (s : string) : trimEnd (trimEnd s) = trimEnd s.
Proof.
  induction s as [| c rest IH]; [reflexivity |].
  cbn [trimEnd].
  destruct (trimEnd rest) as [| c' kept] eqn:Hrest.
  - destruct (is_space c) eqn:Hc; [reflexivity |].
    cbn [trimEnd]. now rewrite Hc.
  - cbn [trimEnd] in *. now rewrite IH.
Qed.

Lemma trimStart_clean (s : string) :
  trimStart (trimEnd (trimStart s)) = trimEnd (trimStart s).
Proof.
  induction s as [| c rest IH]; [reflexivity |].
  cbn [trimStart]. destruct (is_space c) eqn:Hc; [exact IH |].
  cbn [trimEnd].
  destruct (trimEnd rest); rewrite ?Hc; cbn [trimStart]; now rewrite Hc.
Qed.

Lemma trim_idempotent (s : string) : trim (trim s) = trim s.
Proof.
  unfold trim. now rewrite trimStart_clean, trimEnd_idempotent.
Qed.

Lemma normalization_idempotent (s : string) :
  normalized (toLowerCase (trim s)).
Proof.
  unfold normalized, trim.
  rewrite trimStart_toLowerCase, trimEnd_toLowerCase, toLowerCase_idempotent.
  fold (trim s). fold (trim (trim s)). now rewrite trim_idempotent.
Qed.

Lemma email_field_normalized (body : option json) (em : string) :
  email_field body = Value em -> normalized em.
Proof.
  unfold email_field. destruct (field body "email"); [| discriminate].
  intros [= <-]. apply normalization_idempotent.
Qed.

(** ** The effects of a request *)

(** Reading the boolean tests of a handler as facts. *)
Ltac read_tests :=
  repeat match goal with
         | H : (_ || _)%bool = false |- _ =>
             apply orb_false_elim in H; destruct H
         | H : negb _ = false |- _ => apply negb_false_iff in H
         | H : negb _ = true |- _ => apply negb_true_iff in H
         | H : (_ <? _) = false |- _ => apply Z.ltb_ge in H
         | H : (or_zero _ >=? _) = false |- _ => rewrite or_zero_id in H
         | H : (_ >=? _) = false |- _ =>
             rewrite Z.geb_leb in H; apply Z.leb_gt in H
         end.

Lemma route_handler_effect `{SecretHasher} (r : route) (e : env)
  (body : option json) (w : world) :
  (snd (route_handler r e body w) = w
   /\ refusal r (fst (route_handler r e body w)))
  \/ exists em,
       email_field body = Value em
       /\ is_empty em = false
       /\ store_change e body em w r (fst (route_handler r e body w))
            (snd (route_handler r e body w)).
Proof.
  destruct r; cbn [route_handler];
    [unfold register, register_handler
    | unfold login, login_handler
    | unfold forgot_password, forgot_password_handler, sendOtpEmail
    | unfold verify_reset_otp, verify_reset_otp_handler
    | unfold reset_password, reset_password_handler];
    unfold_steps; unfold credentials;
    split_cases_eqn;
    try (left; split; [reflexivity |]; unfold refusal;
         first [left; eexists; reflexivity
               | right; left; reflexivity
               | right; right; split; [reflexivity |]; left; reflexivity
               | right; right; split; [reflexivity |]; right; reflexivity]);
    right; eexists; (split; [reflexivity |]);
    read_tests; cbn [fst snd] in *; (split; [assumption |]);
    try match goal with
        | Hrows : context [rows_length (select_by_email (users w) ?em)] |- _ =>
            destruct (select_by_email (users w) em) eqn:?; try discriminate
        end;
    first
      [ solve [econstructor; eauto; lia]
      | solve [eapply login_compares with (ok := true); eauto]
      | solve [eapply login_compares with (ok := false); eauto]
      | solve [eapply verify_counts with (ok := true); eauto; lia]
      | solve [eapply verify_counts with (ok := false); eauto; lia]
      | solve [eapply forgot_sets with (sent := true); eauto]
      | solve [eapply forgot_sets with (sent := false); eauto] ].
Qed.

(** The same, with the answer and the new world named. *)
Lemma route_handler_cases `{SecretHasher} (r : route) (e : env)
  (body : option json) (w w' : world) (resp : response) :
  route_handler r e body w = (resp, w') ->
  (w' = w /\ refusal r resp)
  \/ exists em,
       email_field body = Value em
       /\ is_empty em = false
       /\ store_change e body em w r resp w'.
Proof.
  intros Hrun. pose proof (route_handler_effect r e body w) as Heffect.
  rewrite Hrun in Heffect. exact Heffect.
Qed.

(** ** The table under updates *)

Lemma update_map_email (tbl : list user_row) (em : string)
  (set : user_row -> user_row) :
  (forall u, email (set u) = email u) ->
  map email (update_by_email tbl em set) = map email tbl.
Proof.
  intros Hkeep. unfold update_by_email. rewrite map_map.
  apply map_ext. intros u. destruct (String.eqb (email u) em); auto.
Qed.

Lemma update_map_id (tbl : list user_row) (em : string)
  (set : user_row -> user_row) :
  (forall u, id (set u) = id u) ->
  map id (update_by_email tbl em set) = map id tbl.
Proof.
  intros Hkeep. unfold update_by_email. rewrite map_map.
  apply map_ext. intros u. destruct (String.eqb (email u) em); auto.
Qed.

Lemma update_Forall (P : user_row -> Prop) (tbl : list user_row)
  (em : string) (set : user_row -> user_row) :
  Forall P tbl ->
  (forall u, In u tbl -> email u = em -> P u -> P (set u)) ->
  Forall P (update_by_email tbl em set).
Proof.
  intros Htbl Hset. unfold update_by_email. apply Forall_forall.
  intros u' Hin. apply in_map_iff in Hin. destruct Hin as (u & <- & Hu).
  rewrite Forall_forall in Htbl.
  destruct (String.eqb_spec (email u) em) as [Heq | _]; auto.
Qed.

Lemma select_none_not_stored (tbl : list user_row) (em : string) :
  select_by_email tbl em = [] -> ~ In em (map email tbl).
Proof.
  intros Hnone Hin. apply in_map_iff in Hin. destruct Hin as (u & Hu & Hin).
  assert (Hsel : In u (select_by_email tbl em)).
  { apply filter_In. split; [exact Hin |]. now apply String.eqb_eq. }
  rewrite Hnone in Hsel. exact Hsel.
Qed.

Lemma select_unique (tbl : list user_row) (em : string) (user : user_row)
  (rest : list user_row) :
  NoDup (map email tbl) ->
  select_by_email tbl em = user :: rest ->
  rest = [] /\ forall u, In u tbl -> email u = em -> u = user.
Proof.
  induction tbl as [| a tbl IH]; [discriminate |].
  cbn [map select_by_email filter]. intros Hnodup Hsel.
  inversion Hnodup as [| x xs Hfresh Hrest]; subst.
  destruct (String.eqb_spec (email a) em) as [Ha | Ha].
  - injection Hsel as <- Htail.
    assert (Hnone : select_by_email tbl em = []).
    { destruct (select_by_email tbl em) as [| u us] eqn:Hsel'; [reflexivity |].
      exfalso. apply Hfresh.
      assert (Hin : In u (select_by_email tbl em)) by (rewrite Hsel'; now left).
      apply filter_In in Hin. destruct Hin as [Hin Hu].
      apply String.eqb_eq in Hu. rewrite Ha, <- Hu. now apply in_map. }
    unfold select_by_email in Hnone. rewrite Hnone in Htail.
    split; [now symmetry |].
    intros u [<- | Hin] Hu; [reflexivity |].
    exfalso. apply Hfresh. rewrite Ha, <- Hu. now apply in_map.
  - destruct (IH Hrest Hsel) as [Hnil Hall]. split; [exact Hnil |].
    intros u [<- | Hin] Hu; [contradiction | now apply Hall].
Qed.

Lemma select_update_other (tbl : list user_row) (em other : string)
  (set : user_row -> user_row) :
  (forall u, email (set u) = email u) ->
  other <> em ->
  select_by_email (update_by_email tbl em set) other
  = select_by_email tbl other.
Proof.
  intros Hkeep Hother. unfold select_by_email, update_by_email.
  induction tbl as [| u tbl IH]; [reflexivity |].
  cbn [map filter].
  destruct (String.eqb_spec (email u) em) as [Hu | Hu].
  - rewrite Hkeep.
    destruct (String.eqb_spec (email u) other) as [Ho | Ho]; [congruence |].
    exact IH.
  - destruct (String.eqb (email u) other); [now rewrite IH | exact IH].
Qed.

Lemma select_insert_other (tbl : list user_row) (em other h : string) (i : Z) :
  other <> em ->
  select_by_email (tbl ++ [new_user i em h]) other = select_by_email tbl other.
Proof.
  intros Hother. unfold select_by_email. rewrite filter_app. cbn.
  destruct (String.eqb_spec em other) as [Heq | _]; [congruence |].
  apply app_nil_r.
Qed.

(** ** Invariants *)

Lemma NoDup_snoc {A : Type} (l : list A) (x : A) :
  NoDup l -> ~ In x l -> NoDup (l ++ [x]).
Proof.
  intros Hl Hx. induction Hl as [| a l Ha _ IH]; cbn [app].
  - constructor; [intros [] | constructor].
  - constructor.
    + intros Hin. apply in_app_or in Hin. destruct Hin as [Hin | [<- | []]].
      * contradiction.
      * apply Hx. now left.
    + apply IH. intros Hin. apply Hx. now right.
Qed.

(** Case analysis on what a request did: nothing, or one of the cases of
    [store_change]. *)
Ltac by_effect r e body w :=
  let resp := fresh "resp" in
  let w' := fresh "w'" in
  let Hrun := fresh "Hrun" in
  destruct (route_handler r e body w) as [resp w'] eqn:Hrun;
  cbn [snd fst];
  let em := fresh "em" in
  let Hem := fresh "Hem" in
  let Hne := fresh "Hne" in
  let Hchange := fresh "Hchange" in
  destruct (route_handler_cases r e body w w' resp Hrun)
    as [[-> _] | (em & Hem & Hne & Hchange)];
  [try assumption | destruct Hchange;
                    repeat match goal with x := _ |- _ => subst x end;
                    cbn [users next_id inserted compared with_users mailed];
                    try match goal with
                        | sent : bool |- _ =>
                            destruct sent;
                            cbn [users next_id with_users mailed]
                        end].

(** A request that runs with no other request in between keeps the emails
    pairwise different. *)
Lemma route_handler_keeps_emails_unique `{SecretHasher} (r : route) (e : env)
  (body : option json) (w : world) :
  emails_unique w -> emails_unique (snd (route_handler r e body w)).
Proof.
  unfold emails_unique. intros Hw. by_effect r e body w;
    rewrite ?update_map_email by reflexivity; try assumption.
  rewrite map_app. cbn [map email new_user].
  apply NoDup_snoc; [assumption | now apply select_none_not_stored].
Qed.

Lemma route_handler_keeps_ids_unique `{SecretHasher} (r : route) (e : env)
  (body : option json) (w : world) :
  ids_unique w -> ids_unique (snd (route_handler r e body w)).
Proof.
  unfold ids_unique. intros Hw. by_effect r e body w;
    rewrite ?update_map_id by reflexivity;
    try (split; [apply Hw |];
         apply update_Forall; [apply Hw | intros u _ _ Hu; exact Hu]);
    try assumption.
  destruct Hw as [Hnodup Hbelow]. split.
  - rewrite map_app. cbn [map id new_user].
    apply NoDup_snoc; [assumption |].
    intros Hin. apply in_map_iff in Hin. destruct Hin as (u & Hid & Hin).
    rewrite Forall_forall in Hbelow. specialize (Hbelow u Hin). lia.
  - apply Forall_app. split.
    + eapply Forall_impl; [| exact Hbelow]. cbn beta. intros u Hu. lia.
    + constructor; [cbn [id new_user]; lia | constructor].
Qed.

Lemma route_handler_keeps_emails_normalized `{SecretHasher} (r : route)
  (e : env) (body : option json) (w : world) :
  emails_normalized w -> emails_normalized (snd (route_handler r e body w)).
Proof.
  unfold emails_normalized. intros Hw. by_effect r e body w;
    try (apply update_Forall; [assumption | intros u _ _ Hu; exact Hu]);
    try assumption.
  apply Forall_app. split; [assumption |].
  constructor; [| constructor]. cbn [email new_user].
  split; [assumption | eapply email_field_normalized; eassumption].
Qed.


Lemma route_handler_keeps_challenges_consistent `{SecretHasher} (r : route)
  (e : env) (body : option json) (w : world) :
  challenges_consistent w ->
  challenges_consistent (snd (route_handler r e body w)).
Proof.
  unfold challenges_consistent. intros Hw. by_effect r e body w;
    try (apply update_Forall; [assumption |];
         intros u _ _ Hu;
         cbn [reset_otp_hash reset_otp_expires set_challenge set_password
                increment_attempts];
         first [exact Hu
               | split; [split; discriminate |];
                 intros [= Hempty];
                 pose proof (hash_not_empty (generateOtp6 (random e)) 10 (salt e))
                   as Hfull;
                 rewrite Hempty in Hfull; discriminate
               | split; [tauto | discriminate]]);
    try assumption.
  apply Forall_app. split; [assumption |].
  constructor; [| constructor].
  cbn [reset_otp_hash reset_otp_expires new_user]. split; [tauto | discriminate].
Qed.

Lemma route_handler_keeps_secrets_hashed `{SecretHasher} (r : route)
  (e : env) (body : option json) (w : world) :
  (0 <= random e)%Q -> (random e < 1)%Q ->
  secrets_hashed w -> secrets_hashed (snd (route_handler r e body w)).
Proof.
  unfold secrets_hashed. intros Hlo Hhi Hw.
  by_effect r e body w;
    try (apply update_Forall; [assumption |];
         intros u _ _ [Hpw Hotp];
         cbn [password_hash reset_otp_hash set_challenge set_password
                increment_attempts];
         first [ split; [exact Hpw | exact Hotp]
               | split; [exact Hpw |];
                 intros h [= <-]; eexists _, _;
                 split; [apply (otp_number_range (random e) Hlo Hhi)
                        | reflexivity]
               | split; [eexists _, _; split; [eassumption | reflexivity]
                        | discriminate] ]);
    try assumption.
  apply Forall_app. split; [assumption |].
  constructor; [| constructor].
  cbn [password_hash reset_otp_hash new_user]. split; [| discriminate].
  eexists _, _. split; [| reflexivity].
  match goal with
  | Hlen : 6 <= str_length ?pass |- is_empty ?pass = false =>
      destruct pass; [cbn in Hlen; lia | reflexivity]
  end.
Qed.

(** X5.  Stored emails are keys in normal form: in every world reachable
    from a table whose emails are non-empty and unchanged by
    [trim().toLowerCase()], every stored email still is (register stores
    the normalized email, and normalizing twice changes nothing). *)
Theorem reachable_emails_normalized `{SecretHasher} (w0 w : world) :
  emails_normalized w0 -> reachable w0 w -> emails_normalized w.
Proof.
  intros Hstart Hreach.
  induction Hreach as [| w r e body _ IH]; [exact Hstart |].
  apply route_handler_keeps_emails_normalized, IH.
Qed.

Example reachable_emails_normalized_example :
  emails_normalized
    (snd (@route_handler marker_hasher ApiRegister (at_time 1000)
            (credentials_body "  New.User@X.COM " "secret1")
            (store_of [account 0]))).
Proof.
  assert (Hstart : emails_normalized (store_of [account 0])).
  { constructor; [split; reflexivity | constructor]. }
  exact (@reachable_emails_normalized marker_hasher (store_of [account 0]) _
           Hstart
           (reachable_request (store_of [account 0]) (store_of [account 0])
              ApiRegister (at_time 1000)
              (credentials_body "  New.User@X.COM " "secret1")
              (reachable_start (store_of [account 0])))).
Defined.

(** X7.  The challenge of a row is set and cleared as a whole: in every
    world reachable from a table where each row has its OTP hash and its
    expiry both present or both absent, and no empty OTP hash, this still
    holds, so "no OTP hash" and "no pending challenge" mean the same. *)
Theorem reachable_challenges_consistent `{SecretHasher} (w0 w : world) :
  challenges_consistent w0 -> reachable w0 w -> challenges_consistent w.
Proof.
  intros Hstart Hreach.
  induction Hreach as [| w r e body _ IH]; [exact Hstart |].
  apply route_handler_keeps_challenges_consistent, IH.
Qed.

Example reachable_challenges_consistent_example :
  challenges_consistent
    (snd (@route_handler marker_hasher ApiResetPassword (at_time 1000)
            (reset_body "a@x.com" "400000" "new-secret")
            (store_of [account 0]))).
Proof.
  assert (Hstart : challenges_consistent (store_of [account 0])).
  { constructor; [| constructor].
    split; [split; discriminate | discriminate]. }
  exact (@reachable_challenges_consistent marker_hasher
           (store_of [account 0]) _ Hstart
           (reachable_request (store_of [account 0]) (store_of [account 0])
              ApiResetPassword (at_time 1000)
              (reset_body "a@x.com" "400000" "new-secret")
              (reachable_start (store_of [account 0])))).
Defined.

(** X8.  Secrets are stored hashed: when every [Math.random()] draws
    from [0, 1), in every world reachable from a table whose password
    hashes are outputs of [bcrypt.hash(_, 10)] on non-empty passwords and
    whose OTP hashes are outputs of [bcrypt.hash(_, 10)] on six-digit codes
    (the digits of an integer between 100000 and 999999), this still holds:
    register and reset-password write only [bcrypt.hash] of the submitted
    password, forgot-password only [bcrypt.hash] of the code that
    [generateOtp6] made. *)
Theorem reachable_secrets_hashed `{SecretHasher} (w0 w : world) :
  secrets_hashed w0 -> reachable_drawing_below_one w0 w -> secrets_hashed w.
Proof.
  intros Hstart Hreach.
  induction Hreach as [| w r e body Hlo Hhi _ IH]; [exact Hstart |].
  apply route_handler_keeps_secrets_hashed; assumption.
Qed.

Example reachable_secrets_hashed_example :
  @secrets_hashed marker_hasher
    (snd (@route_handler marker_hasher ApiForgotPassword (at_time 1000)
            (email_body "a@x.com") (store_of [account 0]))).
Proof.
  assert (Hstart : @secrets_hashed marker_hasher (store_of [account 0])).
  { constructor; [| constructor]. split.
    - exists "old-secret", "". split; reflexivity.
    - intros h [= <-]. exists 400000, "". split; [lia | reflexivity]. }
  assert (Hlo : (0 <= random (at_time 1000))%Q) by (cbv; congruence).
  assert (Hhi : (random (at_time 1000) < 1)%Q) by reflexivity.
  exact (@reachable_secrets_hashed marker_hasher (store_of [account 0]) _
           Hstart
           (drawing_below_one_request (store_of [account 0])
              (store_of [account 0])
              ApiForgotPassword (at_time 1000) (email_body "a@x.com")
              Hlo Hhi
              (drawing_below_one_start (store_of [account 0])))).
Defined.

(** ** What a request leaves alone *)

(** X9.  A request only touches the account it names: for every route and
    body, the rows stored under any email other than the normalized email
    of the request are the same before and after. *)
Theorem other_accounts_untouched `{SecretHasher} (r : route) (e : env)
  (body : option json) (w : world) (other : string) :
  email_field body <> Value other ->
  select_by_email (users (snd (route_handler r e body w))) other
  = select_by_email (users w) other.
Proof.
  intros Hother.
  destruct (route_handler r e body w) as [resp w'] eqn:Hrun. cbn [snd].
  destruct (route_handler_cases r e body w w' resp Hrun)
    as [[-> _] | (em & Hem & Hne & Hchange)]; [reflexivity |].
  assert (Hdiff : other <> em) by (intros ->; contradiction).
  destruct Hchange;
    repeat match goal with x := _ |- _ => subst x end;
    try match goal with sent : bool |- _ => destruct sent end;
    cbn [users inserted compared with_users mailed];
    first [ reflexivity
          | now apply select_insert_other
          | now apply select_update_other ].
Qed.

Example other_accounts_untouched_example :
  select_by_email
    (users (snd (@route_handler marker_hasher ApiResetPassword (at_time 1000)
                   (reset_body "b@x.com" "400000" "new-secret")
                   (store_of [account 0;
                              new_user 8 "b@x.com" "#secret1"]))))
    "a@x.com"
  = [account 0].
Proof.
  assert (Hother : email_field (reset_body "b@x.com" "400000" "new-secret")
                   <> Value "a@x.com") by discriminate.
  exact (@other_accounts_untouched marker_hasher ApiResetPassword
           (at_time 1000) (reset_body "b@x.com" "400000" "new-secret")
           (store_of [account 0; new_user 8 "b@x.com" "#secret1"])
           "a@x.com" Hother).
Defined.

(** X10.  No request deletes an account or changes its id or email: the
    list of (id, email) pairs after a request is the list before it,
    followed by at most one new pair, and a new pair only comes from a
    register call, which gives it the store's next id and the normalized
    email of the request. *)
Theorem accounts_never_removed `{SecretHasher} (r : route) (e : env)
  (body : option json) (w : world) :
  exists added,
    map (fun u => (id u, email u)) (users (snd (route_handler r e body w)))
    = (map (fun u => (id u, email u)) (users w) ++ added)%list
    /\ (added = []
        \/ (r = ApiRegister
            /\ fst (route_handler r e body w) = AccountCreated
            /\ exists em, email_field body = Value em
                          /\ added = [(next_id w, em)])).
Proof.
  assert (Hkeep : forall em set,
             (forall u, id (set u) = id u /\ email (set u) = email u) ->
             map (fun u => (id u, email u)) (update_by_email (users w) em set)
             = map (fun u => (id u, email u)) (users w)).
  { intros em set Hset. unfold update_by_email. rewrite map_map.
    apply map_ext. intros u. destruct (String.eqb (email u) em); [| reflexivity].
    destruct (Hset u) as [-> ->]. reflexivity. }
  destruct (route_handler r e body w) as [resp w'] eqn:Hrun. cbn [fst snd].
  destruct (route_handler_cases r e body w w' resp Hrun)
    as [[-> _] | (em & Hem & Hne & Hchange)].
  - exists []. split; [now rewrite app_nil_r | now left].
  - destruct Hchange;
      repeat match goal with x := _ |- _ => subst x end;
      try match goal with sent : bool |- _ => destruct sent end;
      cbn [users inserted compared with_users mailed];
      try (exists []; rewrite ?Hkeep by (intros u; split; reflexivity);
           split; [now rewrite app_nil_r | now left]).
    exists [(next_id w, em)]. split.
    + now rewrite map_app.
    + right. repeat split. now exists em.
Qed.

(** X11.  Commit changes a password only for a correct, live code.  When
    reset-password answers "Password updated successfully.", the request
    named an account whose first row held a challenge not past its expiry,
    and [bcrypt.compare] accepted the submitted code against the stored OTP
    hash.  Whenever it answers anything else, the table is exactly as
    before. *)
Theorem reset_password_only_with_live_code `{SecretHasher} (e : env)
  (body : option json) (w : world) :
  (fst (reset_password e body w) = PasswordUpdated ->
   exists em otp pw user rest h expires,
     email_field body = Value em
     /\ otp_field body = Value otp
     /\ field body "newPassword" = Value pw
     /\ select_by_email (users w) em = user :: rest
     /\ challenge user = Some (h, expires)
     /\ now e <= expires
     /\ bcrypt_compare otp h = true
     /\ users (snd (reset_password e body w))
        = update_by_email (users w) em
            (set_password (bcrypt_hash pw 10 (salt e))))
  /\ (fst (reset_password e body w) <> PasswordUpdated ->
      users (snd (reset_password e body w)) = users w).
Proof.
  change (reset_password e body w) with (route_handler ApiResetPassword e body w).
  destruct (route_handler ApiResetPassword e body w) as [resp w'] eqn:Hrun.
  cbn [fst snd].
  destruct (route_handler_cases _ e body w w' resp Hrun)
    as [[-> Hrefused] | (em & Hem & Hne & Hchange)].
  - split; [| reflexivity].
    intros ->. exfalso.
    destruct Hrefused as [[msg Hmsg] | [Hcatch | [Hroute _]]]; discriminate.
  - remember ApiResetPassword as r eqn:Hr.
    destruct Hchange; try discriminate Hr.
    + split; [discriminate | reflexivity].
    + split; [| intros Hnot; now contradiction Hnot].
      intros _. exists em, otp, pw, user, rest, h, expires.
      repeat split; assumption.
Qed.

(** X12.  Verify never mutates a credential.  Whatever the request, after
    verify-reset-otp every row has the id, email, password hash, OTP hash
    and expiry it had before, no mail was sent and no row was added: the
    only column verify writes is the attempts counter.  And it answers
    "OTP verified." only when [bcrypt.compare] accepted the submitted code
    against a stored challenge not past its expiry, with fewer than 5
    attempts made before. *)
Theorem verify_reset_otp_only_counts `{SecretHasher} (e : env)
  (body : option json) (w : world) :
  let w' := snd (verify_reset_otp e body w) in
  map (fun u => (id u, email u, password_hash u, reset_otp_hash u,
                 reset_otp_expires u)) (users w')
  = map (fun u => (id u, email u, password_hash u, reset_otp_hash u,
                   reset_otp_expires u)) (users w)
  /\ next_id w' = next_id w
  /\ outbox w' = outbox w
  /\ (fst (verify_reset_otp e body w) = Valid ->
      exists em otp user rest h expires,
        email_field body = Value em
        /\ otp_field body = Value otp
        /\ select_by_email (users w) em = user :: rest
        /\ challenge user = Some (h, expires)
        /\ now e <= expires
        /\ reset_otp_attempts user < 5
        /\ bcrypt_compare otp h = true).
Proof.
  cbv zeta.
  change (verify_reset_otp e body w)
    with (route_handler ApiVerifyResetOtp e body w).
  destruct (route_handler ApiVerifyResetOtp e body w) as [resp w'] eqn:Hrun.
  cbn [fst snd].
  destruct (route_handler_cases _ e body w w' resp Hrun)
    as [[-> Hrefused] | (em & Hem & Hne & Hchange)].
  - repeat split. intros ->. exfalso.
    destruct Hrefused as [[msg Hmsg] | [Hcatch | [Hroute _]]]; discriminate.
  - remember ApiVerifyResetOtp as r eqn:Hr.
    destruct Hchange; try discriminate Hr.
    cbn [users next_id outbox with_users compared].
    split; [| split; [reflexivity | split; [reflexivity |]]].
    + unfold update_by_email. rewrite map_map. apply map_ext.
      intros u. destruct (String.eqb (email u) em); reflexivity.
    + destruct ok; [| discriminate]. intros _.
      exists em, otp, user, rest, h, expires. repeat split; assumption.
Qed.


(** ** The protocol end to end *)

Lemma reset_password_no_challenge `{SecretHasher} (e : env)
  (body : option json) (w : world) (em otp pw : string) (user : user_row)
  (rest : list user_row) :
  email_field body = Value em ->
  otp_field body = Value otp ->
  field body "newPassword" = Value pw ->
  is_empty em = false ->
  is_empty otp = false ->
  is_empty pw = false ->
  select_by_email (users w) em = user :: rest ->
  challenge user = None ->
  reset_password e body w = (NoChallengeError, w).
Proof.
  intros Hem Hotp Hpw Hem_ne Hotp_ne Hpw_ne Hsel Hch.
  unfold reset_password, reset_password_handler. unfold_steps.
  rewrite Hem, Hotp, Hpw, Hem_ne, Hotp_ne, Hpw_ne. cbn.
  now rewrite Hsel, Hch.
Qed.

(** What "OTP sent to your email." tells about a forgot-password call. *)
Lemma forgot_password_sent `{SecretHasher} (e : env) (body : option json)
  (w : world) (em : string) :
  email_field body = Value em ->
  fst (forgot_password e body w) = OtpSent ->
  is_empty em = false
  /\ exists user rest,
       select_by_email (users w) em = user :: rest
       /\ snd (forgot_password e body w)
          = mailed
              (with_users w
                 (update_by_email (users w) em
                    (set_challenge
                       (bcrypt_hash (generateOtp6 (random e)) 10 (salt e))
                       (now e + 5 * 60 * 1000))))
              em (generateOtp6 (random e)).
Proof.
  intros Hem Hsent.
  change (forgot_password e body w)
    with (route_handler ApiForgotPassword e body w) in *.
  destruct (route_handler ApiForgotPassword e body w) as [resp w'] eqn:Hrun.
  cbn [fst snd] in *. subst resp.
  destruct (route_handler_cases _ e body w w' OtpSent Hrun)
    as [[_ Hrefused] | (em' & Hem' & Hne & Hchange)].
  - exfalso.
    destruct Hrefused as [[msg Hmsg] | [Hcatch | [_ [Hgen | Hsmtp]]]];
      discriminate.
  - rewrite Hem in Hem'. injection Hem' as <-.
    split; [exact Hne |].
    remember ApiForgotPassword as r eqn:Hr.
    remember OtpSent as resp eqn:Hresp.
    destruct Hchange; try discriminate Hr.
    destruct sent; [| discriminate Hresp].
    exists user, rest. split; [assumption | reflexivity].
Qed.

(** X14.  The three steps compose.  When forgot-password answers "OTP sent
    to your email." for an account, the message it put in the outbox
    carries a code with which, within 5 minutes, verify answers "OTP
    verified.", commit then answers "Password updated successfully.", and
    a login with the new password then succeeds for that account. *)
Theorem reset_protocol_end_to_end `{SecretHasher} (e1 e2 e3 e4 : env)
  (asking checking committing signing_in : option json) (w : world)
  (em pw : string) :
  let code := generateOtp6 (random e1) in
  let w1 := snd (forgot_password e1 asking w) in
  let w2 := snd (verify_reset_otp e2 checking w1) in
  let w3 := snd (reset_password e3 committing w2) in
  email_field asking = Value em ->
  fst (forgot_password e1 asking w) = OtpSent ->
  (0 <= random e1)%Q -> (random e1 < 1)%Q ->
  email_field checking = Value em ->
  otp_field checking = Value code ->
  email_field committing = Value em ->
  otp_field committing = Value code ->
  field committing "newPassword" = Value pw ->
  is_empty pw = false ->
  credentials signing_in = Value (em, pw) ->
  now e2 <= now e1 + 300000 ->
  now e3 <= now e1 + 300000 ->
  outbox w1 = (outbox w ++ [(em, code)])%list
  /\ fst (verify_reset_otp e2 checking w1) = Valid
  /\ fst (reset_password e3 committing w2) = PasswordUpdated
  /\ exists user rest,
       select_by_email (users w) em = user :: rest
       /\ fst (login e4 signing_in w3) = LoggedIn user.
Proof.
  intros code w1 w2 w3 Hask Hsent Hlo Hhi Hcheck_em Hcheck_otp Hcommit_em
    Hcommit_otp Hcommit_pw Hpw_ne Hsign Hlive2 Hlive3.
  destruct (forgot_password_sent e1 asking w em Hask Hsent)
    as (Hem_ne & user & rest & Hsel & Hw1).
  fold w1 in Hw1. fold code in Hw1.
  pose proof (generateOtp6_not_empty _ Hlo Hhi) as Hcode_ne. fold code in Hcode_ne.
  set (h := bcrypt_hash code 10 (salt e1)) in *.
  set (set1 := set_challenge h (now e1 + 5 * 60 * 1000)) in *.
  assert (Hsel1 : select_by_email (users w1) em = set1 user :: map set1 rest).
  { rewrite Hw1. cbn [users mailed with_users].
    rewrite select_update_same by reflexivity. now rewrite Hsel. }
  assert (Hch1 : challenge (set1 user) = Some (h, now e1 + 300000)).
  { subst set1 h. now rewrite challenge_set_challenge. }
  (* verify *)
  pose proof (verify_reset_otp_pending e2 checking w1 em code _ _ h _
                Hcheck_em Hcheck_otp Hem_ne Hcode_ne Hsel1 Hch1) as Hrun2.
  replace (now e1 + 300000 <? now e2) with false in Hrun2
    by (symmetry; apply Z.ltb_ge; lia).
  cbn [reset_otp_attempts set1 set_challenge Z.geb Z.compare] in Hrun2.
  unfold h in Hrun2 at 1. rewrite compare_hash in Hrun2.
  assert (Hsel2 : select_by_email (users w2) em
                  = increment_attempts (set1 user)
                    :: map increment_attempts (map set1 rest)).
  { subst w2. rewrite Hrun2. cbn [snd users with_users].
    rewrite select_update_same by reflexivity. now rewrite Hsel1. }
  (* commit *)
  pose proof (reset_password_pending e3 committing w2 em code pw _ _ h
                (now e1 + 300000) Hcommit_em Hcommit_otp Hcommit_pw Hem_ne
                Hcode_ne Hpw_ne Hsel2 Hch1) as Hrun3.
  replace (now e1 + 300000 <? now e3) with false in Hrun3
    by (symmetry; apply Z.ltb_ge; lia).
  unfold h in Hrun3 at 1. rewrite compare_hash in Hrun3.
  set (set3 := set_password (bcrypt_hash pw 10 (salt e3))) in *.
  assert (Hsel3 : select_by_email (users w3) em
                  = set3 (increment_attempts (set1 user))
                    :: map set3 (map increment_attempts (map set1 rest))).
  { subst w3. rewrite Hrun3. cbn [snd users with_users].
    rewrite select_update_same by reflexivity. now rewrite Hsel2. }
  split; [now rewrite Hw1 |].
  split; [now rewrite Hrun2 |].
  split; [now rewrite Hrun3 |].
  exists user, rest. split; [exact Hsel |].
  rewrite (login_checked e4 signing_in w3 em pw Hsign Hem_ne Hpw_ne).
  rewrite Hsel3. cbn [fst password_hash set3 set_password].
  now rewrite compare_hash.
Qed.

Example reset_protocol_end_to_end_example :
  let w1 := snd (@forgot_password marker_hasher (at_time 1000)
                   (email_body " A@X.com") (store_of [account 5])) in
  let w2 := snd (@verify_reset_otp marker_hasher (at_time 2000)
                   (otp_body "a@x.com" "400000") w1) in
  let w3 := snd (@reset_password marker_hasher (at_time 3000)
                   (reset_body "a@x.com" "400000" "new-secret") w2) in
  outbox w1 = [("a@x.com", "400000")]
  /\ fst (@login marker_hasher (at_time 4000)
            (credentials_body "a@x.com" "new-secret") w3)
     = LoggedIn (account 5).
Proof.
  cbv zeta.
  assert (Hlo : (0 <= random (at_time 1000))%Q) by (cbv; congruence).
  assert (Hhi : (random (at_time 1000) < 1)%Q) by reflexivity.
  assert (Hlive2 : now (at_time 2000) <= now (at_time 1000) + 300000)
    by (cbv [now at_time drawing]; lia).
  assert (Hlive3 : now (at_time 3000) <= now (at_time 1000) + 300000)
    by (cbv [now at_time drawing]; lia).
  destruct (@reset_protocol_end_to_end marker_hasher (at_time 1000)
              (at_time 2000) (at_time 3000) (at_time 4000)
              (email_body " A@X.com") (otp_body "a@x.com" "400000")
              (reset_body "a@x.com" "400000" "new-secret")
              (credentials_body "a@x.com" "new-secret")
              (store_of [account 5]) "a@x.com" "new-secret"
              eq_refl eq_refl Hlo Hhi eq_refl eq_refl eq_refl eq_refl eq_refl
              eq_refl eq_refl Hlive2 Hlive3)
    as (Hmail & _ & _ & user & rest & Hsel & Hlogin).
  injection Hsel as <- <-.
  split; [exact Hmail | exact Hlogin].
Defined.

(** X15.  A code is single use.  After a commit answered "Password updated
    successfully.", every further commit and every further verify for the
    same account, with whatever code, is answered "OTP not requested." and
    changes nothing, until a new code is requested. *)
Theorem commit_consumes_the_code `{SecretHasher} (e e' : env)
  (body again : option json) (w : world) (em otp pw : string) :
  email_field body = Value em ->
  fst (reset_password e body w) = PasswordUpdated ->
  email_field again = Value em ->
  otp_field again = Value otp ->
  is_empty otp = false ->
  let w' := snd (reset_password e body w) in
  verify_reset_otp e' again w' = (NoChallengeError, w')
  /\ (field again "newPassword" = Value pw -> is_empty pw = false ->
      reset_password e' again w' = (NoChallengeError, w')).
Proof.
  intros Hem Hdone Hagain_em Hagain_otp Hotp_ne w'.
  change (reset_password e body w)
    with (route_handler ApiResetPassword e body w) in *.
  destruct (route_handler ApiResetPassword e body w) as [resp w1] eqn:Hrun.
  cbn [fst snd] in *. subst resp w'.
  destruct (route_handler_cases _ e body w w1 PasswordUpdated Hrun)
    as [[_ Hrefused] | (em' & Hem' & Hne & Hchange)].
  - exfalso.
    destruct Hrefused as [[msg Hmsg] | [Hcatch | [Hroute _]]]; discriminate.
  - rewrite Hem in Hem'. injection Hem' as <-.
    remember ApiResetPassword as r eqn:Hr.
    remember PasswordUpdated as resp eqn:Hresp.
    destruct Hchange; try discriminate Hr; try discriminate Hresp.
    set (set3 := set_password (bcrypt_hash pw0 10 (salt e))).
    assert (Hsel' : select_by_email
                      (users (with_users (compared w)
                                (update_by_email (users w) em set3))) em
                    = set3 user :: map set3 rest).
    { cbn [users with_users]. rewrite select_update_same by reflexivity.
      match goal with Hsel : select_by_email _ _ = _ |- _ => now rewrite Hsel end. }
    split.
    + now apply (verify_reset_otp_no_challenge e' again _ em otp (set3 user)
                   (map set3 rest)).
    + intros Hpw Hpw_ne.
      now apply (reset_password_no_challenge e' again _ em otp pw (set3 user)
                   (map set3 rest)).
Qed.

Example commit_consumes_the_code_example :
  let body := reset_body "a@x.com" "400000" "new-secret" in
  let w' := snd (@reset_password marker_hasher (at_time 1000) body
                   (store_of [account 0])) in
  @reset_password marker_hasher (at_time 2000) body w' = (NoChallengeError, w').
Proof.
  cbv zeta.
  destruct (@commit_consumes_the_code marker_hasher (at_time 1000)
              (at_time 2000) (reset_body "a@x.com" "400000" "new-secret")
              (reset_body "a@x.com" "400000" "new-secret")
              (store_of [account 0]) "a@x.com" "400000" "new-secret"
              eq_refl eq_refl eq_refl eq_refl eq_refl) as [_ Hcommit].
  exact (Hcommit eq_refl eq_refl).
Defined.

(** ** Register and login *)

(** X16.  Register creates an account exactly when its checks pass.  It
    answers "Account created" if and only if the body's email and password
    coerce to strings, the normalized email is not empty, the password has
    at least 6 characters and no row holds the normalized email; whenever
    it answers anything else, the world is exactly as before. *)
Theorem register_creates_iff `{SecretHasher} (e : env) (body : option json)
  (w : world) :
  (fst (register e body w) = AccountCreated
   <-> exists em pass,
         credentials body = Value (em, pass)
         /\ is_empty em = false
         /\ 6 <= str_length pass
         /\ select_by_email (users w) em = [])
  /\ (fst (register e body w) <> AccountCreated ->
      snd (register e body w) = w).
Proof.
  split; [split |].
  - change (register e body w) with (route_handler ApiRegister e body w).
    destruct (route_handler ApiRegister e body w) as [resp w'] eqn:Hrun.
    cbn [fst]. intros ->.
    destruct (route_handler_cases _ e body w w' AccountCreated Hrun)
      as [[_ Hrefused] | (em & Hem & Hne & Hchange)].
    + exfalso.
      destruct Hrefused as [[msg Hmsg] | [Hcatch | [Hroute _]]]; discriminate.
    + remember ApiRegister as r eqn:Hr.
      destruct Hchange; try discriminate Hr.
      exists em, pass. unfold credentials.
      match goal with Hpass : field body "password" = _ |- _ =>
        rewrite Hem, Hpass end.
      repeat split; assumption.
  - intros (em & pass & Hcred & Hne & Hlen & Hfresh).
    rewrite (register_checked e body w em pass Hcred Hne Hlen), Hfresh.
    reflexivity.
  - change (register e body w) with (route_handler ApiRegister e body w).
    destruct (route_handler ApiRegister e body w) as [resp w'] eqn:Hrun.
    cbn [fst snd]. intros Hnot.
    destruct (route_handler_cases _ e body w w' resp Hrun)
      as [[-> _] | (em & Hem & Hne & Hchange)]; [reflexivity |].
    remember ApiRegister as r eqn:Hr.
    destruct Hchange; try discriminate Hr. now contradiction Hnot.
Qed.

(** X17.  Login tells whether an email is registered.  For a request that
    passes the input check, login answers "User not found. Please Sign Up."
    exactly when no row holds the normalized email, and then without any
    [bcrypt.compare] call; with a row, the answer is the account or "Wrong
    password", and one comparison was made. *)
Theorem login_reveals_registration `{SecretHasher} (e : env)
  (body : option json) (w : world) (em pass : string) :
  credentials body = Value (em, pass) ->
  is_empty em = false ->
  is_empty pass = false ->
  (fst (login e body w) = UserNotFound <-> select_by_email (users w) em = [])
  /\ (select_by_email (users w) em = [] -> login e body w = (UserNotFound, w))
  /\ (forall user rest,
        select_by_email (users w) em = user :: rest ->
        (fst (login e body w) = LoggedIn user
         \/ fst (login e body w) = InvalidCredentials)
        /\ snd (login e body w) = compared w).
Proof.
  intros Hcred Hem_ne Hpass_ne.
  rewrite (login_checked e body w em pass Hcred Hem_ne Hpass_ne).
  destruct (select_by_email (users w) em) as [| first others].
  - repeat split; discriminate.
  - split; [| split].
    + split; [| discriminate].
      cbn [fst]. destruct (bcrypt_compare pass (password_hash first));
        discriminate.
    + discriminate.
    + intros user rest [= <- <-]. cbn [fst snd]. split; [| reflexivity].
      destruct (bcrypt_compare pass (password_hash first)); [now left | now right].
Qed.

Example login_reveals_registration_example :
  @login marker_hasher (at_time 1000)
    (credentials_body "nobody@x.com" "old-secret") (store_of [account 0])
  = (UserNotFound, store_of [account 0]).
Proof.
  destruct (@login_reveals_registration marker_hasher (at_time 1000)
              (credentials_body "nobody@x.com" "old-secret")
              (store_of [account 0]) "nobody@x.com" "old-secret"
              eq_refl eq_refl eq_refl) as (_ & Hunknown & _).
  exact (Hunknown eq_refl).
Defined.

(** X18.  A stored account can be looked up by its stored email.  In a
    table with pairwise different, normalized, non-empty emails, a login
    with the email of a stored row exactly as stored and a password that
    [bcrypt.compare] accepts against that row's hash returns that row's id
    and email. *)
Theorem login_finds_stored_account `{SecretHasher} (e : env) (w : world)
  (user : user_row) (pw : string) :
  emails_unique w ->
  emails_normalized w ->
  In user (users w) ->
  is_empty pw = false ->
  bcrypt_compare pw (password_hash user) = true ->
  fst (login e (credentials_body (email user) pw) w) = LoggedIn user.
Proof.
  intros Hunique Hnormal Hin Hpw_ne Hright.
  unfold emails_normalized in Hnormal. rewrite Forall_forall in Hnormal.
  destruct (Hnormal user Hin) as [Hem_ne Hfixed].
  pose proof (credentials_body_fields (email user) pw) as Hcred.
  unfold normalized in Hfixed. rewrite Hfixed in Hcred.
  rewrite (login_checked e _ w (email user) pw Hcred Hem_ne Hpw_ne).
  destruct (select_by_email (users w) (email user)) as [| first rest] eqn:Hsel.
  - exfalso.
    assert (Hsel_in : In user (select_by_email (users w) (email user))).
    { apply filter_In. split; [exact Hin | apply String.eqb_refl]. }
    rewrite Hsel in Hsel_in. exact Hsel_in.
  - destruct (select_unique _ _ _ _ Hunique Hsel) as [_ Honly].
    rewrite <- (Honly user Hin eq_refl). cbn [fst]. now rewrite Hright.
Qed.

Example login_finds_stored_account_example :
  fst (@login marker_hasher (at_time 1000)
         (credentials_body "b@x.com" "secret1")
         (store_of [account 0; new_user 8 "b@x.com" "#secret1"]))
  = LoggedIn (new_user 8 "b@x.com" "#secret1").
Proof.
  assert (Hunique : emails_unique
                      (store_of [account 0; new_user 8 "b@x.com" "#secret1"])).
  { constructor; [intros [Heq | []]; discriminate |].
    constructor; [intros [] | constructor]. }
  assert (Hnormal : emails_normalized
                      (store_of [account 0; new_user 8 "b@x.com" "#secret1"])).
  { repeat constructor. }
  exact (@login_finds_stored_account marker_hasher (at_time 1000)
           (store_of [account 0; new_user 8 "b@x.com" "#secret1"])
           (new_user 8 "b@x.com" "#secret1") "secret1"
           Hunique Hnormal (or_intror (or_introl eq_refl)) eq_refl eq_refl).
Defined.

(** ** Start-up and the pool *)

Lemma route_handler_not_disconnected `{SecretHasher} (r : route) (e : env)
  (body : option json) (w : world) :
  fst (route_handler r e body w) <> DbNotConnected.
Proof.
  destruct (route_handler r e body w) as [resp w'] eqn:Hrun. cbn [fst].
  destruct (route_handler_cases r e body w w' resp Hrun)
    as [[_ Hrefused] | (em & _ & _ & Hchange)].
  - destruct Hrefused as [[msg ->] | [-> | [_ [-> | ->]]]]; try discriminate.
    destruct r; discriminate.
  - destruct Hchange;
      try match goal with ok : bool |- _ => destruct ok end; discriminate.
Qed.

(** X19.  The pool is decided by [initDB] and never again.  If [initDB]
    failed, every request that arrives after it, on every route and on the
    health check, is answered 500 "DB not connected. Check MySQL config."
    and the pool stays absent: there is no reconnection.  If it succeeded,
    the pool stays present and no request is ever answered that way. *)
Theorem pool_is_fixed_at_startup `{SecretHasher} (connects : bool)
  (db : world) (requests : list request) :
  (connects = false ->
   serve requests (initDB connects db)
   = (repeat DbNotConnected (List.length requests), None))
  /\ (connects = true ->
      (exists w, snd (serve requests (initDB connects db)) = Some w)
      /\ Forall (fun resp => resp <> DbNotConnected)
           (fst (serve requests (initDB connects db)))).
Proof.
  split.
  - intros ->. cbn [initDB].
    induction requests as [| req later IH]; [reflexivity |].
    cbn [serve List.length repeat].
    assert (Hhandle : handle req None = (DbNotConnected, None))
      by (destruct req; reflexivity).
    rewrite Hhandle, IH. reflexivity.
  - intros ->. cbn [initDB]. revert db.
    induction requests as [| req later IH]; intros db.
    + split; [now exists db | constructor].
    + cbn [serve].
      destruct (handle req (Some db)) as [resp pool'] eqn:Hhandle.
      assert (Hstep : (exists w, pool' = Some w) /\ resp <> DbNotConnected).
      { destruct req as [r e body | query_ok];
          cbn [handle app_post requireDB] in Hhandle.
        - pose proof (route_handler_not_disconnected r e body db) as Hnot.
          destruct (route_handler r e body db) as [resp0 w0].
          injection Hhandle as <- <-. split; [now exists w0 | exact Hnot].
        - unfold health in Hhandle. destruct query_ok;
            injection Hhandle as <- <-; (split; [now exists db | discriminate]). }
      destruct Hstep as [[w1 ->] Hresp].
      destruct (IH w1) as [Hpool Hall].
      destruct (serve later (Some w1)) as [resps pool''].
      cbn [fst snd] in *. split; [exact Hpool | now constructor].
Qed.

Example pool_is_fixed_at_startup_example :
  @serve marker_hasher
    [Post ApiLogin (at_time 1000) (credentials_body "a@x.com" "old-secret");
     GetHealth true]
    (initDB false (store_of [account 0]))
  = ([DbNotConnected; DbNotConnected], None).
Proof.
  exact (proj1 (@pool_is_fixed_at_startup marker_hasher false
                  (store_of [account 0])
                  [Post ApiLogin (at_time 1000)
                     (credentials_body "a@x.com" "old-secret");
                   GetHealth true]) eq_refl).
Defined.

(** ** What a handler reads of the body *)

(** X20.  A handler sees the body only through the coerced fields it
    reads.  Two bodies whose fields read by a route coerce to the same
    strings (after [String(... || "")], [trim] and [toLowerCase]) get the
    same answer and the same effect: other fields are ignored, and a
    number, a boolean or a one-element array stands for its text. *)
Theorem route_handler_reads_only_inputs `{SecretHasher} (r : route) (e : env)
  (body body' : option json) (w : world) (inputs : list string) :
  route_inputs r body = Value inputs ->
  route_inputs r body' = Value inputs ->
  route_handler r e body w = route_handler r e body' w.
Proof.
  destruct r; cbn [route_inputs route_handler];
    [unfold register, register_handler
    | unfold login, login_handler
    | unfold forgot_password, forgot_password_handler
    | unfold verify_reset_otp, verify_reset_otp_handler
    | unfold reset_password, reset_password_handler];
    unfold_steps; unfold credentials; intros Hbody Hbody';
    repeat match type of Hbody with
           | context [match ?x with _ => _ end] => destruct x
           end;
    try discriminate;
    repeat match type of Hbody' with
           | context [match ?x with _ => _ end] => destruct x
           end;
    try discriminate;
    injection Hbody as <-; injection Hbody' as ?; subst; reflexivity.
Qed.

Example route_handler_reads_only_inputs_example :
  @route_handler marker_hasher ApiVerifyResetOtp (at_time 1000)
    (Some (JObj [("email", JArr [JStr " A@X.com "]);
                 ("otp", JNum {| num_truthy := true; num_text := "400000" |});
                 ("extra", JBool true)]))
    (store_of [account 0])
  = @route_handler marker_hasher ApiVerifyResetOtp (at_time 1000)
      (otp_body "a@x.com" "400000") (store_of [account 0]).
Proof.
  exact (@route_handler_reads_only_inputs marker_hasher ApiVerifyResetOtp
           (at_time 1000)
           (Some (JObj [("email", JArr [JStr " A@X.com "]);
                        ("otp", JNum {| num_truthy := true;
                                        num_text := "400000" |});
                        ("extra", JBool true)]))
           (otp_body "a@x.com" "400000") (store_of [account 0])
           ["a@x.com"; "400000"] eq_refl eq_refl).
Defined.

(** ** The router's login *)

(** X21.  The router's login succeeds exactly on a stored pair.  For
    string credentials it answers 200 if and only if some row has exactly
    this email and this password in its [email] and [password] columns;
    otherwise it answers 401 "Invalid credentials", the same for an unknown
    email and for a wrong password. *)
Theorem router_login_succeeds_iff (tbl : list router_row) (em pw : string) :
  (status (router_login tbl em pw) = 200
   <-> exists row, In row tbl
                   /\ own_property row "email" = Some (JStr em)
                   /\ own_property row "password" = Some (JStr pw))
  /\ (status (router_login tbl em pw) <> 200 ->
      router_login tbl em pw
      = res_status_json 401 (JObj [("error", JStr "Invalid credentials")])).
Proof.
  assert (Hmatch : forall row,
             (column_is row "email" em && column_is row "password" pw)%bool = true
             <-> own_property row "email" = Some (JStr em)
                 /\ own_property row "password" = Some (JStr pw)).
  { intros row. unfold column_is. rewrite andb_true_iff.
    destruct (own_property row "email") as [[| | | s | |] |];
      destruct (own_property row "password") as [[| | | s' | |] |];
      try (split; [intros [? ?] | intros [? ?]]; discriminate).
    rewrite !String.eqb_eq. split; intros [H1 H2]; split; congruence. }
  unfold router_login.
  destruct (router_select tbl em pw) as [| first rest] eqn:Hsel; cbn [status].
  - split; [| reflexivity]. split; [discriminate |].
    intros (row & Hin & Hrow). exfalso.
    assert (Hsel_in : In row (router_select tbl em pw)).
    { apply filter_In. split; [exact Hin | now apply Hmatch]. }
    rewrite Hsel in Hsel_in. exact Hsel_in.
  - split; [| intros Hnot; now contradiction Hnot].
    split; [intros _ | reflexivity].
    assert (Hin : In first (router_select tbl em pw)) by (rewrite Hsel; now left).
    apply filter_In in Hin. destruct Hin as [Hin Hrow].
    exists first. split; [exact Hin | now apply Hmatch].
Qed.

(* ================================================================== *)
(** * Requests that overlap *)
(* ================================================================== *)

(** A request that runs alone through its awaits answers and leaves the
    store as its handler run in one go, whether or not the table declares
    the email unique. *)
Lemma register_task_alone `{SecretHasher} (unique_key : bool) (e : env)
  (body : option json) (w : world) :
  alone 3 (register_task unique_key e body) w
  = (Finished (fst (register e body w)), snd (register e body w)).
Proof.
  unfold register_task, register, register_handler, duplicate_entry.
  unfold_steps.
  destruct (credentials body) as [[em pass] | err]; [| reflexivity].
  cbn.
  destruct (is_empty em || is_empty pass)%bool; [reflexivity |].
  cbn. destruct (str_length pass <? 6); [reflexivity |].
  cbn.
  destruct (rows_length (select_by_email (users w) em) >? 0) eqn:Hrows;
    [reflexivity |].
  cbn. rewrite Hrows. destruct unique_key; reflexivity.
Qed.

(** The same for a verification. *)
Lemma verify_reset_otp_task_alone `{SecretHasher} (e : env)
  (body : option json) (w : world) :
  alone 3 (verify_reset_otp_task e body) w
  = (Finished (fst (verify_reset_otp e body w)),
     snd (verify_reset_otp e body w)).
Proof.
  unfold verify_reset_otp_task, verify_reset_otp, verify_reset_otp_handler.
  unfold_steps.
  destruct (email_field body) as [em | err]; [| reflexivity].
  destruct (otp_field body) as [otp | err]; [| reflexivity].
  cbn.
  destruct (is_empty em || is_empty otp)%bool; [reflexivity |].
  cbn. destruct (select_by_email (users w) em) as [| user rest]; [reflexivity |].
  cbn. destruct (challenge user) as [[h expires] |]; [| reflexivity].
  cbn. destruct (expires <? now e); [reflexivity |].
  cbn. destruct (or_zero (reset_otp_attempts user) >=? 5); [reflexivity |].
  cbn. destruct (bcrypt_compare otp h); reflexivity.
Qed.

(** Two rows selected for one email: the emails are not pairwise
    different. *)
Lemma select_two_not_unique (w : world) (em : string) (u1 u2 : user_row)
  (rest : list user_row) :
  select_by_email (users w) em = u1 :: u2 :: rest -> ~ emails_unique w.
Proof.
  intros Hsel Hunique.
  destruct (select_unique _ _ _ _ Hunique Hsel) as [Hrest _].
  discriminate.
Qed.

(** X4.  The check of register for an existing email does not hold
    against a registration that overlaps.  For two registrations of one
    normalized email that no row holds, both passing the input checks: in
    every order of their awaits (SELECT, [bcrypt.hash], INSERT) in which
    neither request has answered when the other starts, both find no row
    and both go on to insert.  On a table that does not declare the email
    unique both insert and both answer "Account created", leaving two rows
    with that email.  On a table that declares it, the request that
    inserts second is rejected by the table and answered by the [catch]
    block, "Server error (register)" with status 500, not
    "Email already exists", and one row is added.  One after the other,
    the second is answered "Email already exists" on either table; and a
    request that runs with no other request in between keeps the emails
    pairwise different. *)
Theorem overlapping_registers_pass_the_check `{SecretHasher}
  (unique_key : bool) (e1 e2 : env) (body1 body2 : option json)
  (em pass1 pass2 : string) (w : world) (turns : list nat) :
  credentials body1 = Value (em, pass1) ->
  credentials body2 = Value (em, pass2) ->
  is_empty em = false ->
  6 <= str_length pass1 ->
  6 <= str_length pass2 ->
  select_by_email (users w) em = [] ->
  overlapping turns ->
  let tasks := [register_task unique_key e1 body1;
                register_task unique_key e2 body2] in
  let h1 := bcrypt_hash pass1 10 (salt e1) in
  let h2 := bcrypt_hash pass2 10 (salt e2) in
  let run := interleave turns tasks w in
  (unique_key = false ->
   fst run = [Finished AccountCreated; Finished AccountCreated]
   /\ (snd run = inserted (inserted w em h1) em h2
       \/ snd run = inserted (inserted w em h2) em h1)
   /\ List.length (select_by_email (users (snd run)) em) = 2%nat
   /\ ~ emails_unique (snd run))
  /\ (unique_key = true ->
      (fst run = [Finished AccountCreated;
                  Finished (ServerError "Server error (register)")]
       /\ snd run = inserted w em h1)
      \/ (fst run = [Finished (ServerError "Server error (register)");
                     Finished AccountCreated]
          /\ snd run = inserted w em h2))
  /\ interleave [0; 0; 0; 1; 1; 1]%nat tasks w
     = ([Finished AccountCreated; Finished EmailExists], inserted w em h1)
  /\ (forall r e body w0,
        emails_unique w0 -> emails_unique (snd (route_handler r e body w0))).
Proof.
  intros Hcred1 Hcred2 Hem Hlen1 Hlen2 Hfresh Hturns tasks h1 h2 run.
  assert (Hpass1 : is_empty pass1 = false)
    by (destruct pass1; [cbn in Hlen1; lia | reflexivity]).
  assert (Hpass2 : is_empty pass2 = false)
    by (destruct pass2; [cbn in Hlen2; lia | reflexivity]).
  assert (Hshort1 : (str_length pass1 <? 6) = false) by (apply Z.ltb_ge; lia).
  assert (Hshort2 : (str_length pass2 <? 6) = false) by (apply Z.ltb_ge; lia).
  assert (Hone : forall h,
             select_by_email (users (inserted w em h)) em
             = [new_user (next_id w) em h]).
  { intros h. cbn [users inserted]. apply select_insert_fresh, Hfresh. }
  assert (Hboth : forall ha hb,
             select_by_email (users (inserted (inserted w em ha) em hb)) em
             = [new_user (next_id w) em ha; new_user (next_id w + 1) em hb]).
  { intros ha hb. cbn [users inserted next_id]. unfold select_by_email in *.
    rewrite !filter_app, Hfresh. cbn [filter email new_user app].
    now rewrite String.eqb_refl. }
  assert (Htasks : tasks = [register_task unique_key e1 body1;
                            register_task unique_key e2 body2]) by reflexivity.
  unfold register_task in Htasks. rewrite Hcred1, Hcred2 in Htasks.
  rewrite Hem, Hpass1, Hpass2 in Htasks. cbn [orb] in Htasks.
  rewrite Hshort1, Hshort2 in Htasks.
  split; [| split; [| split]].
  - intros ->.
    assert (Hrun : fst run = [Finished AccountCreated; Finished AccountCreated]
                   /\ (snd run = inserted (inserted w em h1) em h2
                       \/ snd run = inserted (inserted w em h2) em h1)).
    { subst run. rewrite Htasks.
      destruct Hturns as (Hin & Hnot1 & Hnot2). cbn in Hin.
      repeat (destruct Hin as [<- | Hin]; [try contradiction |]);
        try contradiction;
        repeat (cbn [interleave resume_nth rows_length List.length Z.of_nat
                       Z.gtb Z.compare duplicate_entry andb];
                rewrite ?Hfresh);
        (split; [reflexivity | first [left; reflexivity | right; reflexivity]]). }
    destruct Hrun as [Hfst Hsnd].
    split; [exact Hfst | split; [exact Hsnd |]].
    assert (Htwo : exists u1 u2, select_by_email (users (snd run)) em = [u1; u2]).
    { destruct Hsnd as [-> | ->]; rewrite Hboth; eauto. }
    destruct Htwo as (u1 & u2 & Htwo).
    split; [now rewrite Htwo | exact (select_two_not_unique _ _ _ _ _ Htwo)].
  - intros ->. subst run. rewrite Htasks.
    destruct Hturns as (Hin & Hnot1 & Hnot2). cbn in Hin.
    repeat (destruct Hin as [<- | Hin]; [try contradiction |]);
      try contradiction;
      repeat (cbn [interleave resume_nth rows_length List.length Z.of_nat
                     Z.gtb Z.compare duplicate_entry andb Pos.of_succ_nat
                     Pos.succ];
              rewrite ?Hfresh, ?Hone);
      first [left; split; reflexivity | right; split; reflexivity].
  - rewrite Htasks.
    destruct unique_key;
      repeat (cbn [interleave resume_nth rows_length List.length Z.of_nat
                     Z.gtb Z.compare duplicate_entry andb Pos.of_succ_nat
                     Pos.succ];
              rewrite ?Hfresh, ?Hone);
      reflexivity.
  - intros r e body w0. apply route_handler_keeps_emails_unique.
Qed.

Example overlapping_registers_pass_the_check_example :
  let first := credentials_body "b@x.com" "secret1" in
  let second := credentials_body " B@X.com " "secret2" in
  let turns := [0; 1; 0; 1; 0; 1]%nat in
  (let run := interleave turns
                [@register_task marker_hasher false (at_time 1000) first;
                 @register_task marker_hasher false (at_time 2000) second]
                (store_of [account 0]) in
   fst run = [Finished AccountCreated; Finished AccountCreated]
   /\ select_by_email (users (snd run)) "b@x.com"
      = [new_user 8 "b@x.com" "#secret1"; new_user 9 "b@x.com" "#secret2"])
  /\ (let run := interleave turns
                   [@register_task marker_hasher true (at_time 1000) first;
                    @register_task marker_hasher true (at_time 2000) second]
                   (store_of [account 0]) in
      fst run = [Finished AccountCreated;
                 Finished (ServerError "Server error (register)")]
      /\ select_by_email (users (snd run)) "b@x.com"
         = [new_user 8 "b@x.com" "#secret1"]).
Proof.
  cbv zeta.
  assert (Hlen1 : 6 <= str_length "secret1") by (cbv; congruence).
  assert (Hlen2 : 6 <= str_length "secret2") by (cbv; congruence).
  assert (Hturns : overlapping [0; 1; 0; 1; 0; 1]%nat).
  { split; [| split; discriminate].
    cbn. repeat (first [left; reflexivity | right]). }
  split; [split; [| reflexivity] | split; reflexivity].
  exact (proj1 (proj1 (@overlapping_registers_pass_the_check marker_hasher
                         false (at_time 1000) (at_time 2000)
                         (credentials_body "b@x.com" "secret1")
                         (credentials_body " B@X.com " "secret2")
                         "b@x.com" "secret1" "secret2" (store_of [account 0])
                         [0; 1; 0; 1; 0; 1]%nat
                         eq_refl eq_refl eq_refl Hlen1 Hlen2 eq_refl Hturns)
                  eq_refl)).
Defined.


